(** * FileUpload: the media upload control of components/FileUpload.tsx

    A shallow embedding of the React component [FileUpload] and of the
    module-level [authenticator], with the properties of its event
    handlers.

    - JavaScript numbers are IEEE 754 binary64 values: [spec_float] with
      the operations of [SpecFloat] at precision 53 and [emax] 1024.
    - JavaScript values are a small tagged union; objects are finite maps
      from property names to values.
    - An event handler is a computation over the component state
      ([useState] cells) that records its observable effects (console
      output, notices, the [onFileChange] callback, network requests) and
      completes normally or throws. *)

From Stdlib Require Import ZArith NArith String List Lia Floats.SpecFloat.
From stdpp Require Import base option list gmap strings pretty.

#[local] Open Scope Z_scope.

(** ** Numbers *)

Definition number : Type := spec_float.

(** Number literal of an integer. *)
Definition num (z : Z) : number := binary_normalize 53 1024 z 0 false.

Definition NaN : number := S754_nan.
Definition Infinity : number := S754_infinity false.

(** [x / y] and [x * y]. *)
Definition js_div (x y : number) : number := SFdiv 53 1024 x y.
Definition js_mul (x y : number) : number := SFmul 53 1024 x y.

(** [x > y], [x < y], [x <= y], [x !== y] on numbers. *)
Definition js_gt (x y : number) : bool := SFltb y x.
Definition js_lt (x y : number) : bool := SFltb x y.
Definition js_le (x y : number) : bool := SFleb x y.
Definition js_strict_ne (x y : number) : bool := negb (SFeqb x y).

(** [Math.round]: a number that is not finite is returned as it is; a
    finite one becomes the integer closest to it, a tie going towards
    +Infinity; a result of zero keeps the sign of the argument.
    With [x = v / 2^k] the closest integer is [floor ((2v + 2^k) / 2^(k+1))]. *)
Definition Math_round (x : number) : number :=
  match x with
  | S754_finite s m e =>
      if 0 <=? e then x
      else
        let n := (2 * cond_Zopp s (Zpos m) + 2 ^ (- e)) / 2 ^ (1 - e) in
        if n =? 0 then S754_zero s else num n
  | _ => x
  end.

(** The integer a number denotes, when it is a finite integral number. *)
Definition integerValue (x : number) : option Z :=
  match x with
  | S754_zero _ => Some 0
  | S754_finite s m e =>
      if 0 <=? e then Some (cond_Zopp s (Zpos m * 2 ^ e))
      else if Zpos m mod 2 ^ (- e) =? 0
           then Some (cond_Zopp s (Zpos m / 2 ^ (- e)))
           else None
  | _ => None
  end.

(** A binary64 number in canonical form. *)
Definition valid_number (x : number) : bool := valid_binary 53 1024 x.

(** [Number.isFinite]. *)
Definition Number_isFinite (x : number) : bool :=
  match x with
  | S754_zero _ | S754_finite _ _ _ => true
  | _ => false
  end.

(** *** Rounding: the notions the proofs about [/] and [*] use *)

(** A shift record has lost a non-zero bit. *)
Definition inexact (rec : shr_record) : bool := shr_r rec || shr_s rec.

(** [rec'] is [rec] shifted right by [k] bits. *)
Definition shifted (k : Z) (rec rec' : shr_record) : Prop :=
  shr_m rec' = shr_m rec / 2 ^ k
  ∧ (inexact rec' = true → inexact rec = true ∨ shr_m rec mod 2 ^ k ≠ 0).

(** [x] is a number that is not negative and not above the integer [B]. *)
Definition at_most (B : Z) (x : number) : Prop :=
  match x with
  | S754_zero _ => True
  | S754_finite false m e => e ≤ 0 ∧ Zpos m ≤ B * 2 ^ (- e)
  | _ => False
  end.

(** [n] is the integer nearest to the finite number [x] of sign [s],
    mantissa [m] and exponent [e], and the upper one when two are equally
    near: [n - 1/2 <= x < n + 1/2]. *)
Definition nearest_integer (s : bool) (m : positive) (e : Z) (n : Z) : Prop :=
  let v := cond_Zopp s (Zpos m) in
  if 0 <=? e then n = v * 2 ^ e
  else (2 * n - 1) * 2 ^ (- e) ≤ 2 * v < (2 * n + 1) * 2 ^ (- e).

(** [stored] is [x] rounded to an integer: the integer nearest to [x],
    the upper one at a tie, when [x] is finite and not zero; [x] itself
    when it is a zero, an infinity or NaN. *)
Definition rounded (x stored : number) : Prop :=
  match x with
  | S754_finite s m e =>
      ∃ n : Z, nearest_integer s m e n ∧ integerValue stored = Some n
  | _ => stored = x
  end.

(** The progress is an integer from 0 to 100. *)
Definition percent_ok (x : number) : Prop :=
  ∃ n : Z, integerValue x = Some n ∧ 0 ≤ n ≤ 100.

(** ** Values *)

#[warnings="-register-all"] Inductive JsValue : Type :=
| VUndefined
| VNull
| VBool (b : bool)
| VNum (n : number)
| VStr (s : string)
| VError (name message : string)
| VObj (fields : gmap string JsValue).

(** [new Error(message)]. *)
Definition new_Error (message : string) : JsValue := VError "Error" message.

(** ToBoolean. *)
Definition truthy (v : JsValue) : bool :=
  match v with
  | VUndefined | VNull => false
  | VBool b => b
  | VNum (S754_zero _) | VNum S754_nan => false
  | VNum _ => true
  | VStr s => negb (String.eqb s "")
  | VError _ _ | VObj _ => true
  end.

(** [a ?? b]. *)
Definition nullish_coalesce (a b : JsValue) : JsValue :=
  match a with
  | VUndefined | VNull => b
  | _ => a
  end.

(** ** Effects and computations *)

Record Toast : Type := {
  title : string;
  description : string;
  toast_variant : option string
}.

Inductive Effect : Type :=
| ConsoleLog (args : list JsValue)
| ConsoleError (args : list JsValue)
| ToastShown (t : Toast)
| FileChange (filePath : JsValue)
| Fetch (url method : string) (headers : list (string * string)).

Inductive completion (A : Type) : Type :=
| Normal (a : A)
| Throw (reason : JsValue).
Arguments Normal {A} a.
Arguments Throw {A} reason.

(** A computation over a state [S]: final state, effects in order, and
    how it completed. *)
Definition M (S A : Type) : Type := S → S * list Effect * completion A.

#[global] Instance M_ret {S} : MRet (M S) := λ A a s, (s, [], Normal a).

#[global] Instance M_bind {S} : MBind (M S) := λ A B f m s,
  let '(s1, t1, c) := m s in
  match c with
  | Normal a => let '(s2, t2, c2) := f a s1 in (s2, t1 ++ t2, c2)
  | Throw e => (s1, t1, Throw e)
  end.

Definition emit {S} (e : Effect) : M S unit := λ s, (s, [e], Normal tt).
Definition throw {S A} (reason : JsValue) : M S A := λ s, (s, [], Throw reason).
Definition modify {S} (f : S → S) : M S unit := λ s, (f s, [], Normal tt).

(** [try { body } catch (error) { handler }]. *)
Definition try_catch {S A} (body : M S A) (handler : JsValue → M S A) : M S A :=
  λ s,
    let '(s1, t1, c) := body s in
    match c with
    | Normal a => (s1, t1, Normal a)
    | Throw e => let '(s2, t2, c2) := handler e s1 in (s2, t1 ++ t2, c2)
    end.

(** [await p] for a promise that has settled to [c]. *)
Definition await {S A} (c : completion A) : M S A := λ s, (s, [], c).

Definition console_log {S} (args : list JsValue) : M S unit := emit (ConsoleLog args).
Definition console_error {S} (args : list JsValue) : M S unit := emit (ConsoleError args).
Definition toast {S} (t : Toast) : M S unit := emit (ToastShown t).

Definition final_state {S A} (r : S * list Effect * completion A) : S := r.1.1.
Definition effects {S A} (r : S * list Effect * completion A) : list Effect := r.1.2.
Definition outcome {S A} (r : S * list Effect * completion A) : completion A := r.2.

(** A string occurs inside another. *)
Definition contains (s part : string) : Prop :=
  ∃ before after : string, s = before +:+ part +:+ after.

(** ** The network *)

(** A [fetch] response: the status line and what the body readers
    [text()] and [json()] settle to. *)
Record Response : Type := {
  status : N;
  text_ : completion string;
  json_ : completion JsValue
}.

(** [response.ok]: the status is in the range 200-299. *)
Definition Response_ok (r : Response) : bool :=
  ((200 <=? status r) && (status r <=? 299))%N.

(** What the promise returned by [fetch] settles to. *)
Inductive fetch_outcome : Type :=
| Rejected (reason : JsValue)
| Resolved (response : Response).

Definition fetch {S} (net : fetch_outcome) (url method : string)
    (headers : list (string * string)) : M S Response :=
  emit (Fetch url method headers);;
  match net with
  | Rejected reason => throw reason
  | Resolved response => mret response
  end.

(** The object returned by [authenticator]. *)
Record AuthGrant : Type := {
  token : JsValue;
  expire : JsValue;
  signature : JsValue
}.

(** ** The component's data *)

(** [type: "image" | "video"] and [variant: "dark" | "light"]. *)
Inductive MediaType : Type := image | video.
Inductive Variant : Type := dark | light.

Definition MediaType_str (t : MediaType) : string :=
  match t with image => "image" | video => "video" end.

Definition MediaType_eqb (a b : MediaType) : bool :=
  match a, b with
  | image, image | video, video => true
  | _, _ => false
  end.

(** The props; the callback [onFileChange] is the caller's, and a call of
    it is recorded as the effect [FileChange]. *)
Record Props : Type := {
  type : MediaType;
  accept : string;
  placeholder : string;
  folder : string;
  variant : Variant;
  value : option string
}.

(** A selected [File]; [size] is its length in bytes. *)
Record File : Type := {
  file_name : string;
  size : N
}.

(** The two [useState] cells (lines 64-67). *)
Record UploadState : Type := {
  file : JsValue;
  progress : number
}.

Definition setFile (v : JsValue) : M UploadState unit :=
  modify (λ st, {| file := v; progress := progress st |}).

Definition setProgress (n : number) : M UploadState unit :=
  modify (λ st, {| file := file st; progress := n |}).

Definition onFileChange {S} (filePath : JsValue) : M S unit :=
  emit (FileChange filePath).

(** [value ?? null] for the optional prop. *)
Definition option_to_value (o : option string) : JsValue :=
  match o with
  | Some s => VStr s
  | None => VUndefined
  end.

(** The state at mount. *)
Definition mount (p : Props) : UploadState :=
  {| file := VObj {[ "filePath" := nullish_coalesce (option_to_value (value p)) VNull ]};
     progress := num 0 |}.

(** The argument of [onUploadProgress]. *)
Record ProgressEvent : Type := {
  loaded : number;
  total : number
}.

(** The events the upload control delivers to the handlers it was given
    (lines 123-131). *)
Inductive UploadEvent : Type :=
| EvUploadStart
| EvUploadProgress (ev : ProgressEvent)
| EvSuccess (res : JsValue)
| EvError (error : JsValue).

Record Styles : Type := {
  button : string;
  placeholder_style : string;
  text : string
}.

Record View : Type := {
  button_class : string;
  placeholder_text : string;
  filename : option JsValue;
  progress_bar : option number;
  image_preview : option JsValue;
  video_preview : option JsValue
}.

(** What the upload control is asked to transfer. *)
Record TransferRequest : Type := {
  tr_file : File;
  tr_grant : AuthGrant;
  tr_folder : string;
  tr_accept : string;
  tr_useUniqueFileName : bool
}.

(** ** Sample inputs *)

Definition sample_apiEndpoint : string := "https://library.example".

Definition sample_ToString (v : JsValue) : string := "[object Object]".

Definition sample_TypeError (v : JsValue) (key : string) : string :=
  "Cannot read properties of undefined (reading '" +:+ key +:+ "')".

Definition sample_control_error (reason : JsValue) : JsValue := reason.

Definition sample_control_refusal (g : AuthGrant) : JsValue :=
  VError "Error" "Missing authentication parameters for upload".

Definition sample_props : Props :=
  {| type := image; accept := "image/*"; placeholder := "Upload a cover";
     folder := "books/covers"; variant := dark; value := None |}.

Definition sample_video_props : Props :=
  {| type := video; accept := "video/*"; placeholder := "Upload a trailer";
     folder := "books/videos"; variant := light; value := Some "/videos/old.mp4" |}.

Definition small_file : File := {| file_name := "cover.png"; size := 20 * 1024 * 1024 |}.
Definition large_file : File := {| file_name := "cover.png"; size := 20 * 1024 * 1024 + 1 |}.

Definition uploaded_fields : gmap string JsValue :=
  {[ "filePath" := VStr "/img/abc.png" ]}.

Definition empty_path_fields : gmap string JsValue :=
  {[ "filePath" := VStr "" ]}.

Definition server_error : Response :=
  {| status := 500; text_ := Normal "server error";
     json_ := Throw (VError "SyntaxError" "Unexpected token s in JSON at position 0") |}.

Definition grant_fields : gmap string JsValue :=
  <[ "token" := VStr "t" ]> (<[ "expire" := VNum (num 123) ]> {[ "signature" := VStr "s" ]}).



Definition grant_response : Response :=
  {| status := 200; text_ := Normal "{...}"; json_ := Normal (VObj grant_fields) |}.

Definition quarter_done : ProgressEvent := {| loaded := num 50; total := num 200 |}.
Definition length_unknown : ProgressEvent := {| loaded := num 5; total := num 0 |}.
Definition overshoot : ProgressEvent := {| loaded := num 300; total := num 200 |}.

Definition sample_events : list UploadEvent :=
  [EvUploadStart; EvUploadProgress quarter_done; EvSuccess (VObj uploaded_fields);
   EvError VNull].



Definition partial_body : Response :=
  {| status := 200; text_ := Normal "{...}";
     json_ := Normal (VObj {[ "token" := VStr "t" ]}) |}.

Definition second_upload_fields : gmap string JsValue :=
  {[ "filePath" := VStr "/img/def.png" ]}.

Definition half_done : ProgressEvent := {| loaded := num 100; total := num 200 |}.
Definition nothing_loaded : ProgressEvent := {| loaded := num 0; total := num 200 |}.

Definition uploaded_state : UploadState :=
  {| file := VObj uploaded_fields; progress := num 100 |}.

Definition later_events : list UploadEvent :=
  [EvError VNull; EvUploadStart; EvUploadProgress half_done;
   EvSuccess (VObj empty_path_fields); EvSuccess VUndefined].

Section FileUpload.

(** The configuration of [@/lib/config] and the engine's wording, which
    the component's file does not fix: the API base URL, the text of a
    number or of a plain object, and the message of the [TypeError]
    raised when a property of [null] or [undefined] is read. *)
Variable apiEndpoint : string.
Variable host_ToString : JsValue → string.
Variable host_TypeError : JsValue → string → string.

(** The form in which the upload control, which is not part of this file
    either, hands to [onError] a failure it caught and a grant it
    refuses. *)
Variable control_error : JsValue → JsValue.
Variable control_refusal : AuthGrant → JsValue.

(** ToString, as applied to the holes of a template literal. *)
Definition ToString (v : JsValue) : string :=
  match v with
  | VUndefined => "undefined"
  | VNull => "null"
  | VBool true => "true"
  | VBool false => "false"
  | VStr s => s
  | VError name message =>
      if String.eqb message "" then name
      else if String.eqb name "" then message
      else name +:+ ": " +:+ message
  | VNum _ | VObj _ => host_ToString v
  end.

(** The property [key] of [v], for the property names this file reads
    ([filePath], [message], [signature], [expire], [token]; none of them
    is a built-in property of a primitive). [None] when [v] is [null] or
    [undefined], which have no properties. *)
Definition lookup_prop (v : JsValue) (key : string) : option JsValue :=
  match v with
  | VUndefined | VNull => None
  | VObj fields => Some (default VUndefined (fields !! key))
  | VError name message =>
      Some (if String.eqb key "message" then VStr message
            else if String.eqb key "name" then VStr name
            else VUndefined)
  | VBool _ | VNum _ | VStr _ => Some VUndefined
  end.

(** [v.key]: reading a property of [null] or [undefined] throws. *)
Definition get_prop {S} (v : JsValue) (key : string) : M S JsValue :=
  match lookup_prop v key with
  | Some x => mret x
  | None => throw (VError "TypeError" (host_TypeError v key))
  end.

(** [v?.key]. *)
Definition get_prop_opt (v : JsValue) (key : string) : JsValue :=
  default VUndefined (lookup_prop v key).

(** *** authenticator (lines 20-42) *)

Definition authenticator {S} (net : fetch_outcome) : M S AuthGrant :=
  try_catch
    (response ← fetch net (apiEndpoint +:+ "/api/auth/imagekit") "GET"
                  [("Content-Type", "application/json")];
     (if negb (Response_ok response) then
        errorText ← await (text_ response);
        console_error [VStr "Authentication error:"; VStr errorText];;
        throw (new_Error ("Request failed with status "
                          +:+ pretty (status response) +:+ ": " +:+ errorText))
      else mret tt);;
     data ← await (json_ response);
     (* const { signature, expire, token } = data; *)
     signature ← get_prop data "signature";
     expire ← get_prop data "expire";
     token ← get_prop data "token";
     mret {| token := token; expire := expire; signature := signature |})
    (λ error,
       console_error [VStr "Authenticator failed:"; error];;
       message ← get_prop error "message";
       throw (new_Error ("Authentication request failed: " +:+ ToString message))).

(** *** The component (lines 44-166) *)

Definition onValidate {S} (p : Props) (file : File) : M S bool :=
  if MediaType_eqb (type p) image && (20 * 1024 * 1024 <? size file)%N then
    toast {| title := "File size too large";
             description := "Please upload a file that is less than 20MB in size";
             toast_variant := Some "destructive" |};;
    mret false
  else if MediaType_eqb (type p) video && (50 * 1024 * 1024 <? size file)%N then
    toast {| title := "File size too large";
             description := "Please upload a file that is less than 50MB in size";
             toast_variant := Some "destructive" |};;
    mret false
  else mret true.

Definition onError (p : Props) (error : JsValue) : M UploadState unit :=
  console_error [VStr "Upload error:"; error];;
  toast {| title := MediaType_str (type p) +:+ " upload failed";
           description := "Your " +:+ MediaType_str (type p)
                          +:+ " could not be uploaded. Please try again.";
           toast_variant := Some "destructive" |}.

Definition onSuccess (p : Props) (res : JsValue) : M UploadState unit :=
  console_log [VStr "Upload success response:"; res];;
  filePath ← get_prop res "filePath";
  if truthy filePath then
    setFile res;;
    (filePath ← get_prop res "filePath"; onFileChange filePath);;
    filePath ← get_prop res "filePath";
    toast {| title := MediaType_str (type p) +:+ " uploaded successfully";
             description := ToString filePath +:+ " uploaded successfully!";
             toast_variant := None |}
  else onError p (new_Error "No file path returned").

Definition onUploadStart : M UploadState unit := setProgress (num 0).

Definition onUploadProgress (ev : ProgressEvent) : M UploadState unit :=
  let percent := Math_round (js_mul (js_div (loaded ev) (total ev)) (num 100)) in
  setProgress percent.

(** The handler the upload control calls for an event (lines 123-131). *)
Definition handle (p : Props) (e : UploadEvent) : M UploadState unit :=
  match e with
  | EvUploadStart => onUploadStart
  | EvUploadProgress ev => onUploadProgress ev
  | EvSuccess res => onSuccess p res
  | EvError error => onError p error
  end.

(** The style classes by variant (lines 70-74). *)
Definition styles (p : Props) : Styles :=
  {| button := match variant p with
               | dark => "bg-dark-300"
               | light => "bg-light-600 border-gray-100 border"
               end;
     placeholder_style := match variant p with
                          | dark => "text-light-100"
                          | light => "text-slate-500"
                          end;
     text := match variant p with
             | dark => "text-light-100"
             | light => "text-dark-400"
             end |}.

(** [progress > 0 && progress !== 100] (line 150). *)
Definition showProgress (progress : number) : bool :=
  js_gt progress (num 0) && js_strict_ne progress (num 100).

(** What the component draws (lines 137-163), for a stored [filePath]
    that can be drawn as text: a string, as the type of the state cell
    (line 64) says, or nothing. *)
Definition render (p : Props) (st : UploadState) : View :=
  let filePath := get_prop_opt (file st) "filePath" in
  {| button_class := button (styles p);
     placeholder_text := placeholder p;
     filename := if truthy filePath then Some filePath else None;
     progress_bar := if showProgress (progress st) then Some (progress st) else None;
     image_preview :=
       if truthy filePath && MediaType_eqb (type p) image then Some filePath else None;
     video_preview :=
       if truthy filePath && MediaType_eqb (type p) video then Some filePath else None |}.

(** The remote path the component currently knows: [file?.filePath],
    when it is set. *)
Definition currentRemotePath (st : UploadState) : option JsValue :=
  let filePath := get_prop_opt (file st) "filePath" in
  if truthy filePath then Some filePath else None.

(** Modelled from the spec: a grant the upload control can use. The auth
    endpoint is expected to answer [{ signature: string, expire: number,
    token: string }], and a body of another shape is fatal for the
    attempt; an empty string and a zero or NaN expiry are no credential. *)
Definition grant_usable (g : AuthGrant) : bool :=
  match token g, expire g, signature g with
  | VStr _, VNum _, VStr _ =>
      truthy (token g) && truthy (expire g) && truthy (signature g)
  | _, _, _ => false
  end.

(** Modelled from the spec: the upload control of the media SDK
    (IKUpload of imagekitio-next), which is not part of this file. For a
    selected file it calls the validation callback and does not start
    when it answers false; otherwise it calls the authenticator, and
    only with a grant it can use does it begin the transfer, to which
    it hands the file, the grant, the folder, the accepted pattern and
    useUniqueFileName = true. A failure of the authenticator and a grant
    it cannot use end the attempt without a transfer and are handed to
    [onError], which logs them and shows the failure notice. *)
Definition uploadAttempt (p : Props) (selected : File) (net : fetch_outcome)
    : M UploadState (option TransferRequest) :=
  accepted ← onValidate (S := UploadState) p selected;
  if accepted : bool then
    try_catch
      (grant ← authenticator net;
       if grant_usable grant then
         mret (Some {| tr_file := selected; tr_grant := grant;
                       tr_folder := folder p; tr_accept := accept p;
                       tr_useUniqueFileName := true |})
       else
         onError p (control_refusal grant);;
         mret None)
      (λ reason, onError p (control_error reason);; mret None)
  else mret None.

(** ** Notions used in the statements *)

(** The size ceiling of a media kind, in bytes: 20 MiB for an image,
    50 MiB for a video. *)
Definition ceiling (t : MediaType) : N :=
  match t with
  | image => 20 * 1024 * 1024
  | video => 50 * 1024 * 1024
  end.

(** The paths handed to the caller's [onFileChange], in order. *)
Definition fileChanges (t : list Effect) : list JsValue :=
  omap (λ e, match e with FileChange v => Some v | _ => None end) t.

(** The notices shown, in order. *)
Definition toasts (t : list Effect) : list Toast :=
  omap (λ e, match e with ToastShown x => Some x | _ => None end) t.

(** The requests sent to the network, in order. *)
Definition fetches (t : list Effect) : list string :=
  omap (λ e, match e with Fetch url _ _ => Some url | _ => None end) t.

(** A progress event of a transfer under way: finite byte counts with
    [0 <= loaded <= total] and [0 < total]. *)
Definition progress_event_ok (ev : ProgressEvent) : Prop :=
  valid_number (loaded ev) = true
  ∧ valid_number (total ev) = true
  ∧ js_le (num 0) (loaded ev) = true
  ∧ js_le (loaded ev) (total ev) = true
  ∧ js_lt (num 0) (total ev) = true
  ∧ Number_isFinite (total ev) = true.

Definition event_ok (e : UploadEvent) : Prop :=
  match e with
  | EvUploadProgress ev => progress_event_ok ev
  | _ => True
  end.

(** The state after a sequence of events; a handler that throws leaves
    the state it had reached. *)
Definition dispatch (p : Props) (events : list UploadEvent) (st : UploadState)
    : UploadState :=
  fold_left (λ s e, final_state (handle p e s)) events st.

(** A success payload the handler takes: its [filePath] is truthy. *)
Definition accepted (res : JsValue) : bool :=
  truthy (get_prop_opt res "filePath").

(** An event that brings no new path: anything but a success whose
    payload is taken. *)
Definition no_new_path (e : UploadEvent) : Prop :=
  match e with
  | EvSuccess res => accepted res = false
  | _ => True
  end.

(** The path an event hands to [onFileChange], if it hands one. *)
Definition path_of_event (e : UploadEvent) : option JsValue :=
  match e with
  | EvSuccess res =>
      if accepted res then Some (get_prop_opt res "filePath") else None
  | _ => None
  end.

(** The effects of a sequence of events, in order. *)
Fixpoint dispatch_effects (p : Props) (events : list UploadEvent)
    (st : UploadState) : list Effect :=
  match events with
  | [] => []
  | e :: rest =>
      effects (handle p e st)
        ++ dispatch_effects p rest (final_state (handle p e st))
  end.

(** [null] or [undefined]. *)
Definition nullish (v : JsValue) : bool :=
  match v with
  | VUndefined | VNull => true
  | _ => false
  end.

(** ** Binary64 rounding

    The quotient of two numbers with [0 <= x <= y] is at most 1, its
    product with 100 at most 100, and [Math.round] of that an integer
    from 0 to 100. The bounds follow the rounding of [SpecFloat]: the
    mantissa is shifted right, the lost bits decide the rounding, and a
    bound that is a multiple of the unit in the last place is never
    crossed. *)

Lemma fexp64 (e : Z) : fexp 53 1024 e = Z.max (e - 53) (-1074).
Proof. reflexivity. Qed.

Lemma digits2_pos_bounds (p : positive) :
  2 ^ (Zpos (digits2_pos p) - 1) ≤ Zpos p < 2 ^ Zpos (digits2_pos p).
Proof.
  induction p as [p IH | p IH |]; cbn [digits2_pos];
    rewrite ?Pos2Z.inj_succ;
    try (replace (Z.succ (Zpos (digits2_pos p)) - 1) with (Z.succ (Zpos (digits2_pos p) - 1)) by lia;
         rewrite !Z.pow_succ_r by lia; lia).
  cbn. lia.
Qed.

Lemma Zdigits2_le (m k : Z) : 0 ≤ m → 0 ≤ k → m ≤ 2 ^ k → Zdigits2 m ≤ k + 1.
Proof.
  intros Hm Hk Hle. destruct m as [| p | p]; cbn; [lia | | lia].
  destruct (digits2_pos_bounds p) as [Hlo _].
  assert (Hpow : 2 ^ (Zpos (digits2_pos p) - 1) ≤ 2 ^ k) by lia.
  apply Z.pow_le_mono_r_iff in Hpow; lia.
Qed.

Lemma Zdigits2_lt (m k : Z) : 0 ≤ m → 0 ≤ k → m < 2 ^ k → Zdigits2 m ≤ k.
Proof.
  intros Hm Hk Hlt. destruct m as [| q | q]; cbn; [lia | | lia].
  destruct (digits2_pos_bounds q) as [Hlo _].
  assert (Hpow : 2 ^ (Zpos (digits2_pos q) - 1) < 2 ^ k) by lia.
  apply Z.pow_lt_mono_r_iff in Hpow; lia.
Qed.

Lemma Zdigits2_gt (m : Z) : 0 ≤ m → m < 2 ^ Zdigits2 m.
Proof.
  intros Hm. destruct m as [| q | q]; cbn [Zdigits2]; [reflexivity | | lia].
  apply digits2_pos_bounds.
Qed.

Lemma shr_1_spec (rec : shr_record) :
  0 ≤ shr_m rec →
  shr_m (shr_1 rec) = shr_m rec / 2
  ∧ inexact (shr_1 rec) = Z.odd (shr_m rec) || inexact rec.
Proof.
  destruct rec as [m r s]. cbn [shr_m]. intros Hm. rewrite <- Z.div2_div.
  destruct m as [| [p | p |] | p]; try lia; unfold inexact; cbn;
    destruct r, s; auto.
Qed.

Lemma mod_mul_zero (m a b : Z) :
  0 < a → 0 < b → m mod (a * b) = 0 → m mod a = 0 ∧ (m / a) mod b = 0.
Proof.
  intros Ha Hb H. apply Z.mod_divide in H; [| lia]. destruct H as [k ->].
  replace (k * (a * b)) with ((k * b) * a) by ring.
  rewrite Z.mod_mul, Z.div_mul by lia. rewrite Z.mod_mul by lia. auto.
Qed.

Lemma shifted_trans (a b : Z) (r0 r1 r2 : shr_record) :
  0 ≤ a → 0 ≤ b → 0 ≤ shr_m r0 →
  shifted a r0 r1 → shifted b r1 r2 → shifted (a + b) r0 r2.
Proof.
  intros Ha Hb Hm [Hm1 Hi1] [Hm2 Hi2].
  assert (Hpa : 0 < 2 ^ a) by (apply Z.pow_pos_nonneg; lia).
  assert (Hpb : 0 < 2 ^ b) by (apply Z.pow_pos_nonneg; lia).
  split.
  - rewrite Hm2, Hm1, Z.pow_add_r, Z.div_div by lia. reflexivity.
  - intros Hi. rewrite Z.pow_add_r by lia.
    destruct (Hi2 Hi) as [Hi' | Hne].
    + destruct (Hi1 Hi') as [? | Hne]; [now left |].
      right. intros H0. apply mod_mul_zero in H0; lia.
    + right. intros H0. apply mod_mul_zero in H0; [| lia | lia].
      rewrite Hm1 in Hne. lia.
Qed.

Lemma shifted_nonneg (k : Z) (r0 r1 : shr_record) :
  0 ≤ k → 0 ≤ shr_m r0 → shifted k r0 r1 → 0 ≤ shr_m r1.
Proof.
  intros Hk Hm [-> _]. apply Z.div_pos; [lia | apply Z.pow_pos_nonneg; lia].
Qed.

Lemma shifted_1 (rec : shr_record) : 0 ≤ shr_m rec → shifted 1 rec (shr_1 rec).
Proof.
  intros Hm. destruct (shr_1_spec rec Hm) as [H1 H2]. split.
  - now rewrite H1.
  - rewrite H2. intros H. apply orb_true_iff in H as [Hodd | ?]; [right | now left].
    change (2 ^ 1) with 2. rewrite Zmod_odd, Hodd. lia.
Qed.

Lemma iter_pos_shr_1 (p : positive) (rec : shr_record) :
  0 ≤ shr_m rec → shifted (Zpos p) rec (SpecFloat.iter_pos shr_1 p rec).
Proof.
  revert rec. induction p as [p IH | p IH |]; intros rec Hm; cbn [SpecFloat.iter_pos].
  - replace (Zpos p~1) with (1 + (Zpos p + Zpos p)) by lia.
    pose proof (shifted_1 rec Hm) as H1.
    assert (Hm1 : 0 ≤ shr_m (shr_1 rec)) by (eapply shifted_nonneg; [| exact Hm | exact H1]; lia).
    pose proof (IH _ Hm1) as H2.
    assert (Hm2 : 0 ≤ shr_m (SpecFloat.iter_pos shr_1 p (shr_1 rec)))
      by (eapply shifted_nonneg; [| exact Hm1 | exact H2]; lia).
    pose proof (IH _ Hm2) as H3.
    eapply shifted_trans; [lia | lia | lia | exact H1 |].
    eapply shifted_trans; [lia | lia | lia | exact H2 | exact H3].
  - replace (Zpos p~0) with (Zpos p + Zpos p) by lia.
    pose proof (IH _ Hm) as H2.
    assert (Hm2 : 0 ≤ shr_m (SpecFloat.iter_pos shr_1 p rec))
      by (eapply shifted_nonneg; [| exact Hm | exact H2]; lia).
    eapply shifted_trans; [lia | lia | lia | exact H2 | exact (IH _ Hm2)].
  - now apply shifted_1.
Qed.

Lemma shr_fexp_spec (m e : Z) (l : location) :
  0 ≤ m →
  ∃ k : Z,
    k = Z.max 0 (fexp 53 1024 (Zdigits2 m + e) - e)
    ∧ snd (shr_fexp 53 1024 m e l) = e + k
    ∧ shr_m (fst (shr_fexp 53 1024 m e l)) = m / 2 ^ k
    ∧ (inexact (fst (shr_fexp 53 1024 m e l)) = true →
       l ≠ loc_Exact ∨ m mod 2 ^ k ≠ 0).
Proof.
  intros Hm. unfold shr_fexp, shr.
  assert (Hrec : shr_m (shr_record_of_loc m l) = m) by (destruct l as [| []]; reflexivity).
  assert (Hin : inexact (shr_record_of_loc m l) = true → l ≠ loc_Exact)
    by (destruct l as [| []]; cbn; congruence).
  destruct (fexp 53 1024 (Zdigits2 m + e) - e) as [| p | p] eqn:Hn.
  - exists 0. cbn [fst snd]. rewrite Hrec, Z.div_1_r.
    refine (conj _ (conj _ (conj _ _))); [lia | lia | reflexivity | auto].
  - exists (Zpos p). cbn [fst snd].
    destruct (iter_pos_shr_1 p (shr_record_of_loc m l)) as [H1 H2]; [rewrite Hrec; lia |].
    rewrite Hrec in *.
    refine (conj _ (conj _ (conj _ _))); [lia | reflexivity | exact H1 |].
    intros Hi. destruct (H2 Hi); auto.
  - exists 0. cbn [fst snd]. rewrite Hrec, Z.div_1_r.
    refine (conj _ (conj _ (conj _ _))); [lia | lia | reflexivity | auto].
Qed.

Lemma round_nearest_even_cases (rec : shr_record) :
  round_nearest_even (shr_m rec) (loc_of_shr_record rec) = shr_m rec
  ∨ (round_nearest_even (shr_m rec) (loc_of_shr_record rec) = shr_m rec + 1
     ∧ inexact rec = true).
Proof.
  destruct rec as [m [] []]; cbn; unfold inexact; cbn; auto.
  destruct (Z.even m); auto.
Qed.

Lemma shift_bound (X m k : Z) :
  0 ≤ k → 0 ≤ m → m ≤ X * 2 ^ k →
  0 ≤ m / 2 ^ k ≤ X
  ∧ (m + 1 ≤ X * 2 ^ k ∨ m mod 2 ^ k ≠ 0 → m / 2 ^ k + 1 ≤ X).
Proof.
  intros Hk Hm Hle.
  assert (Hp : 0 < 2 ^ k) by (apply Z.pow_pos_nonneg; lia).
  split; [split |].
  - apply Z.div_pos; lia.
  - apply Z.div_le_upper_bound; lia.
  - intros Hstrict.
    assert (Hlt : m < 2 ^ k * X).
    { destruct Hstrict as [? | Hne]; [lia |].
      destruct (Z.eq_dec m (X * 2 ^ k)) as [-> | ?]; [| lia].
      now rewrite Z.mod_mul in Hne by lia. }
    apply Z.div_lt_upper_bound in Hlt; lia.
Qed.

Lemma pow2_split (a b : Z) : 0 ≤ a → 0 ≤ b → 2 ^ (a + b) = 2 ^ a * 2 ^ b.
Proof. intros. now apply Z.pow_add_r. Qed.

Lemma shr_fexp_at_most (B m e : Z) (l : location) :
  0 < B ≤ 2 ^ 52 → 0 ≤ m → e ≤ 0 → m ≤ B * 2 ^ (- e) →
  snd (shr_fexp 53 1024 m e l) ≤ 0
  ∧ 0 ≤ shr_m (fst (shr_fexp 53 1024 m e l))
      ≤ B * 2 ^ (- snd (shr_fexp 53 1024 m e l))
  ∧ (inexact (fst (shr_fexp 53 1024 m e l)) = true →
     (l ≠ loc_Exact → m + 1 ≤ B * 2 ^ (- e)) →
     shr_m (fst (shr_fexp 53 1024 m e l)) + 1
       ≤ B * 2 ^ (- snd (shr_fexp 53 1024 m e l))).
Proof.
  intros HB Hm He Hle.
  destruct (shr_fexp_spec m e l Hm) as (k & Hk & -> & -> & Hin).
  rewrite fexp64 in Hk.
  assert (Hpe : 0 < 2 ^ (- e)) by (apply Z.pow_pos_nonneg; lia).
  assert (Hd : Zdigits2 m ≤ 52 - e + 1).
  { apply Zdigits2_le; [lia | lia |].
    replace (52 - e) with (52 + - e) by lia. rewrite pow2_split by lia. nia. }
  assert (Hk0 : 0 ≤ k) by lia.
  assert (Hek : e + k ≤ 0) by lia.
  assert (Hsplit : 2 ^ (- e) = 2 ^ (- (e + k)) * 2 ^ k).
  { rewrite <- pow2_split by lia. f_equal. lia. }
  rewrite Hsplit, Z.mul_assoc in Hle.
  destruct (shift_bound (B * 2 ^ (- (e + k))) m k Hk0 Hm Hle) as [Hrange Hstrict].
  split; [exact Hek | split; [exact Hrange |]].
  intros Hi Hl. apply Hstrict. destruct (Hin Hi) as [Hne | Hmod]; [left | now right].
  specialize (Hl Hne). rewrite Hsplit, Z.mul_assoc in Hl. exact Hl.
Qed.

Lemma binary_round_aux_at_most (B mz ez : Z) (lz : location) :
  0 < B ≤ 2 ^ 52 → 0 ≤ mz → ez ≤ 0 → mz ≤ B * 2 ^ (- ez) →
  (lz ≠ loc_Exact → mz + 1 ≤ B * 2 ^ (- ez)) →
  at_most B (binary_round_aux 53 1024 false mz ez lz).
Proof.
  intros HB Hmz Hez Hle Hlz. unfold binary_round_aux.
  destruct (shr_fexp_at_most B mz ez lz HB Hmz Hez Hle) as (He1 & Hm1 & Hup).
  destruct (shr_fexp 53 1024 mz ez lz) as [rec1 e1]. cbn [fst snd] in *.
  set (m1 := round_nearest_even (shr_m rec1) (loc_of_shr_record rec1)).
  assert (Hm1' : 0 ≤ m1 ≤ B * 2 ^ (- e1)).
  { subst m1. destruct (round_nearest_even_cases rec1) as [-> | [-> Hi]]; [lia |].
    specialize (Hup Hi Hlz). lia. }
  destruct (shr_fexp_at_most B m1 e1 loc_Exact HB) as (He2 & Hm2 & _); [lia | lia | lia |].
  destruct (shr_fexp 53 1024 m1 e1 loc_Exact) as [rec2 e2]. cbn [fst snd] in *.
  destruct (shr_m rec2) as [| m | m]; cbn; [exact I | | lia].
  replace (e2 <=? 1024 - 53) with true by (symmetry; apply Z.leb_le; lia).
  cbn. split; [exact He2 | lia].
Qed.

Lemma valid_finite_digits (s : bool) (m : positive) (e : Z) :
  valid_number (S754_finite s m e) = true →
  -1074 ≤ e ∧ Zpos m < 2 ^ 53 ∧ (-1074 < e → 2 ^ 52 ≤ Zpos m).
Proof.
  unfold valid_number, valid_binary, bounded, canonical_mantissa.
  rewrite fexp64. intros H. apply andb_true_iff in H as [Hc _].
  apply Z.eqb_eq in Hc. destruct (digits2_pos_bounds m) as [Hlo Hhi].
  split; [lia | split].
  - eapply Z.lt_le_trans; [exact Hhi |]. apply Z.pow_le_mono_r; lia.
  - intros He. replace (Zpos (digits2_pos m)) with 53 in Hlo by lia. exact Hlo.
Qed.

Lemma js_le_finite (mx my : positive) (ex ey : Z) :
  valid_number (S754_finite false mx ex) = true →
  valid_number (S754_finite false my ey) = true →
  js_le (S754_finite false mx ex) (S754_finite false my ey) = true →
  ex ≤ ey ∧ Zpos mx ≤ Zpos my * 2 ^ (ey - ex).
Proof.
  intros Hx Hy Hle.
  apply valid_finite_digits in Hx as (Hex & Hmx & _).
  apply valid_finite_digits in Hy as (Hey & _ & Hmy).
  unfold js_le, SFleb, SFcompare in Hle.
  destruct (Z.compare_spec ex ey) as [-> | Hlt | Hgt]; [| | discriminate].
  - rewrite Z.sub_diag. split; [lia |].
    rewrite Pos.compare_cont_spec in Hle. cbn in Hle.
    destruct (Pos.compare_spec mx my); try discriminate; lia.
  - split; [lia |]. specialize (Hmy ltac:(lia)).
    assert (2 ^ 1 ≤ 2 ^ (ey - ex)) by (apply Z.pow_le_mono_r; lia).
    change (2 ^ 1) with 2 in *. nia.
Qed.

Lemma new_location_exact (n r : Z) : new_location n r ≠ loc_Exact → r ≠ 0.
Proof.
  intros H ->. apply H. unfold new_location, new_location_even, new_location_odd.
  destruct (Z.even n); reflexivity.
Qed.

Lemma js_div_at_most (x y : number) :
  valid_number x = true → valid_number y = true →
  js_le (num 0) x = true → js_le x y = true →
  js_lt (num 0) y = true → Number_isFinite y = true →
  at_most 1 (js_div x y).
Proof.
  intros Hvx Hvy H0x Hxy H0y Hfy.
  destruct y as [sy | sy | | sy my ey]; try discriminate.
  destruct sy; [discriminate |].
  destruct x as [sx | sx | | sx mx ex]; try discriminate.
  - exact I.
  - destruct sx; discriminate.
  - destruct sx; [discriminate |].
    destruct (js_le_finite mx my ex ey Hvx Hvy Hxy) as [He Hm].
    unfold js_div, SFdiv, SFdiv_core_binary.
    set (e' := Z.min _ _).
    assert (He' : e' ≤ ex - ey) by (subst e'; lia).
    set (m' := match ex - ey - e' with Z0 => Zpos mx | Zpos _ => _ | Zneg _ => _ end).
    assert (Hm' : m' = Zpos mx * 2 ^ (ex - ey - e')).
    { subst m'. destruct (ex - ey - e') as [| k | k] eqn:Hs; [cbn; lia | | lia].
      now rewrite Z.shiftl_mul_pow2 by lia. }
    clearbody m' e'.
    assert (Hbound : m' ≤ Zpos my * 2 ^ (- e')).
    { rewrite Hm'. replace (- e') with ((ey - ex) + (ex - ey - e')) by lia.
      rewrite pow2_split by lia.
      assert (0 < 2 ^ (ex - ey - e')) by (apply Z.pow_pos_nonneg; lia). nia. }
    assert (Hm0 : 0 ≤ m').
    { rewrite Hm'. assert (0 < 2 ^ (ex - ey - e')) by (apply Z.pow_pos_nonneg; lia). nia. }
    pose proof (Z_div_mod m' (Zpos my) ltac:(lia)) as Hdiv.
    destruct (Z.div_eucl m' (Zpos my)) as [q r] eqn:Hqr.
    destruct Hdiv as [Heq Hr].
    assert (Hq : q = m' / Zpos my) by (unfold Z.div; now rewrite Hqr).
    apply binary_round_aux_at_most.
    + cbn. lia.
    + rewrite Hq. apply Z.div_pos; lia.
    + lia.
    + rewrite Z.mul_1_l, Hq. apply Z.div_le_upper_bound; lia.
    + intros Hloc. apply new_location_exact in Hloc. rewrite Z.mul_1_l.
      assert (Hrm : r = m' mod Zpos my) by (unfold Z.modulo; now rewrite Hqr).
      assert (Hlt : m' < Zpos my * 2 ^ (- e')).
      { destruct (Z.eq_dec m' (Zpos my * 2 ^ (- e'))) as [Hm'eq | ?]; [| lia].
        rewrite Hm'eq, Z.mul_comm, Z.mod_mul in Hrm by lia. contradiction. }
      apply Z.div_lt_upper_bound in Hlt; lia.
Qed.

Lemma js_mul_100_at_most (q : number) :
  at_most 1 q → at_most 100 (js_mul q (num 100)).
Proof.
  destruct q as [s | s | | [] m e]; cbn [at_most]; try contradiction.
  - intros _. exact I.
  - intros [He Hm].
    change (num 100) with (S754_finite false 7036874417766400 (-46)).
    unfold js_mul, SFmul. cbn [xorb].
    apply binary_round_aux_at_most.
    + cbn. lia.
    + lia.
    + lia.
    + rewrite Pos2Z.inj_mul. replace (- (e + -46)) with (46 + - e) by lia.
      rewrite pow2_split by lia. change (2 ^ 46) with 70368744177664. lia.
    + congruence.
Qed.

Lemma upto_100 (P : Z → bool) :
  forallb (λ k, P (Z.of_nat k)) (seq 0 101) = true →
  ∀ n : Z, 0 ≤ n ≤ 100 → P n = true.
Proof.
  intros H n Hn. rewrite forallb_forall in H.
  specialize (H (Z.to_nat n)). rewrite Z2Nat.id in H by lia.
  apply H, in_seq. lia.
Qed.

Lemma integerValue_num (n : Z) : 0 ≤ n ≤ 100 → integerValue (num n) = Some n.
Proof.
  intros Hn.
  pose proof (upto_100 (λ k, match integerValue (num k) with
                             | Some z => z =? k
                             | None => false
                             end) ltac:(vm_compute; reflexivity) n Hn) as H.
  cbv beta in H. destruct (integerValue (num n)) as [z |]; [| discriminate].
  f_equal. now apply Z.eqb_eq.
Qed.

Lemma Math_round_at_most (x : number) : at_most 100 x → percent_ok (Math_round x).
Proof.
  destruct x as [s | s | | [] m e]; cbn [at_most]; try contradiction.
  - intros _. exists 0. split; [reflexivity | lia].
  - intros [He Hm]. unfold Math_round.
    destruct (Z.leb_spec 0 e) as [He0 | He0].
    + assert (e = 0) as -> by lia. exists (Zpos m). cbn in *. split; [f_equal; lia | lia].
    + cbn [cond_Zopp].
      set (n := (2 * Zpos m + 2 ^ (- e)) / 2 ^ (1 - e)).
      assert (Hp : 0 < 2 ^ (- e)) by (apply Z.pow_pos_nonneg; lia).
      assert (Hp1 : 2 ^ (1 - e) = 2 * 2 ^ (- e)).
      { replace (1 - e) with (1 + - e) by lia. now rewrite pow2_split by lia. }
      assert (Hn : 0 ≤ n ≤ 100).
      { subst n. rewrite Hp1. split.
        - apply Z.div_pos; lia.
        - apply Z.lt_succ_r. apply Z.div_lt_upper_bound; lia. }
      destruct (Z.eqb_spec n 0) as [Hz | Hz].
      * exists 0. split; [reflexivity | lia].
      * exists n. split; [now apply integerValue_num | exact Hn].
Qed.

(** *** What [Math.round] returns *)

Lemma binary_round_aux_mantissa (s : bool) (mz ez : Z) (lz : location) :
  0 ≤ mz →
  match binary_round_aux 53 1024 s mz ez lz with
  | S754_finite _ m _ => Zpos m < 2 ^ 53
  | _ => True
  end.
Proof.
  intros Hmz. unfold binary_round_aux.
  destruct (shr_fexp_spec mz ez lz Hmz) as (k1 & Hk1 & _ & Hm1 & _).
  destruct (shr_fexp 53 1024 mz ez lz) as [rec1 e1]. cbn [fst snd] in *.
  set (m1 := round_nearest_even (shr_m rec1) (loc_of_shr_record rec1)).
  assert (Hm1' : 0 ≤ m1).
  { assert (0 ≤ shr_m rec1)
      by (rewrite Hm1; apply Z.div_pos; [lia | apply Z.pow_pos_nonneg; lia]).
    subst m1. destruct (round_nearest_even_cases rec1) as [-> | [-> _]]; lia. }
  destruct (shr_fexp_spec m1 e1 loc_Exact Hm1') as (k2 & Hk2 & _ & Hm2 & _).
  rewrite fexp64 in Hk2.
  destruct (shr_fexp 53 1024 m1 e1 loc_Exact) as [rec2 e2]. cbn [fst snd] in *.
  destruct (shr_m rec2) as [| q | q] eqn:Hq; try exact I.
  destruct (e2 <=? 1024 - 53); [| exact I].
  rewrite Hm2. apply Z.div_lt_upper_bound; [apply Z.pow_pos_nonneg; lia |].
  pose proof (Zdigits2_gt m1 Hm1') as Hd.
  assert (Hdn : 0 ≤ Zdigits2 m1) by (destruct m1; cbn; lia).
  rewrite <- pow2_split by lia.
  eapply Z.lt_le_trans; [exact Hd |]. apply Z.pow_le_mono_r; lia.
Qed.

Lemma js_mul_100_mantissa (q : number) :
  match js_mul q (num 100) with
  | S754_finite _ m _ => Zpos m < 2 ^ 53
  | _ => True
  end.
Proof.
  change (num 100) with (S754_finite false 7036874417766400 (-46)).
  destruct q as [s | s | | s m e]; try exact I.
  unfold js_mul, SFmul. apply binary_round_aux_mantissa. lia.
Qed.

Lemma shr_fexp_no_shift (m : positive) (e : Z) :
  fexp 53 1024 (Zpos (digits2_pos m) + e) ≤ e →
  shr_fexp 53 1024 (Zpos m) e loc_Exact
    = ({| shr_m := Zpos m; shr_r := false; shr_s := false |}, e).
Proof.
  intros Hle. unfold shr_fexp, shr. cbn [Zdigits2 shr_record_of_loc].
  destruct (fexp 53 1024 (Zpos (digits2_pos m) + e) - e) eqn:Hn; [reflexivity | lia | reflexivity].
Qed.

Lemma binary_round_aux_exact (s : bool) (m : positive) (e : Z) :
  fexp 53 1024 (Zpos (digits2_pos m) + e) ≤ e → e ≤ 971 →
  binary_round_aux 53 1024 s (Zpos m) e loc_Exact = S754_finite s m e.
Proof.
  intros Hle He. unfold binary_round_aux.
  rewrite (shr_fexp_no_shift m e Hle). cbn [shr_m loc_of_shr_record round_nearest_even].
  rewrite (shr_fexp_no_shift m e Hle). cbn [shr_m].
  replace (e <=? 1024 - 53) with true by (symmetry; apply Z.leb_le; lia).
  reflexivity.
Qed.

Lemma binary_round_integer (s : bool) (m : positive) :
  Zpos m < 2 ^ 53 →
  ∃ (mz : positive) (ez : Z),
    binary_round 53 1024 s m 0 = S754_finite s mz ez
    ∧ ez ≤ 0 ∧ Zpos mz = Zpos m * 2 ^ (- ez).
Proof.
  intros Hm. unfold binary_round, shl_align.
  assert (Hd : Zpos (digits2_pos m) ≤ 53)
    by (apply (Zdigits2_lt (Zpos m)); lia).
  assert (Hf : fexp 53 1024 (Zpos (digits2_pos m) + 0) = Zpos (digits2_pos m) - 53)
    by (rewrite fexp64; lia).
  rewrite Hf.
  destruct (Zpos (digits2_pos m) - 53 - 0) as [| k | k] eqn:Hk; [| lia |].
  - exists m, 0. split; [| lia]. apply binary_round_aux_exact; [rewrite Hf |]; lia.
  - set (mz := Pos.iter xO m k).
    assert (Hmz : Zpos mz = Zpos m * 2 ^ Zpos k).
    { subst mz. change (Pos.iter xO m k) with (shift_pos k m).
      rewrite shift_pos_correct, Z.pow_pos_fold. lia. }
    exists mz, (Zpos (digits2_pos m) - 53).
    split; [| split; [lia | rewrite Hmz; f_equal; f_equal; lia]].
    apply binary_round_aux_exact; [| lia].
    assert (Hlt : Zpos mz < 2 ^ 53).
    { rewrite Hmz. destruct (digits2_pos_bounds m) as [_ Hhi].
      replace 53 with (Zpos (digits2_pos m) + Zpos k) by lia.
      rewrite pow2_split by lia.
      assert (0 < 2 ^ Zpos k) by (apply Z.pow_pos_nonneg; lia). nia. }
    pose proof (Zdigits2_lt (Zpos mz) 53 ltac:(lia) ltac:(lia) Hlt) as Hdz.
    cbn [Zdigits2] in Hdz. rewrite fexp64. lia.
Qed.

Lemma integerValue_num_exact (n : Z) :
  - 2 ^ 53 < n < 2 ^ 53 → integerValue (num n) = Some n.
Proof.
  intros Hn. destruct n as [| m | m]; [reflexivity | |].
  - destruct (binary_round_integer false m) as (mz & ez & Hnum & Hez & Hmz); [lia |].
    unfold num, binary_normalize. rewrite Hnum. unfold integerValue.
    assert (Hp : 0 < 2 ^ (- ez)) by (apply Z.pow_pos_nonneg; lia).
    destruct (Z.leb_spec 0 ez).
    + assert (ez = 0) as -> by lia. cbn in *. f_equal. lia.
    + rewrite Hmz, Z.mod_mul, Z.div_mul by lia. reflexivity.
  - destruct (binary_round_integer true m) as (mz & ez & Hnum & Hez & Hmz);
      [change (2 ^ 53) with 9007199254740992 in *; lia |].
    unfold num, binary_normalize. rewrite Hnum. unfold integerValue.
    assert (Hp : 0 < 2 ^ (- ez)) by (apply Z.pow_pos_nonneg; lia).
    destruct (Z.leb_spec 0 ez).
    + assert (ez = 0) as -> by lia. cbn in *. f_equal. lia.
    + rewrite Hmz, Z.mod_mul, Z.div_mul by lia. reflexivity.
Qed.

Lemma Math_round_rounded (x : number) :
  match x with S754_finite _ m _ => Zpos m < 2 ^ 53 | _ => True end →
  rounded x (Math_round x).
Proof.
  destruct x as [s | s | | s m e]; try reflexivity.
  intros Hm. unfold rounded, nearest_integer, Math_round.
  destruct (Z.leb_spec 0 e) as [He | He].
  - exists (cond_Zopp s (Zpos m) * 2 ^ e). split; [reflexivity |].
    unfold integerValue. replace (0 <=? e) with true by (symmetry; apply Z.leb_le; lia).
    f_equal. destruct s; cbn [cond_Zopp]; lia.
  - set (v := cond_Zopp s (Zpos m)).
    assert (Hv : - 2 ^ 53 < v < 2 ^ 53) by (subst v; destruct s; cbn [cond_Zopp]; lia).
    assert (Hp : 2 ≤ 2 ^ (- e)).
    { change 2 with (2 ^ 1) at 1. apply Z.pow_le_mono_r; lia. }
    assert (Hp1 : 2 ^ (1 - e) = 2 * 2 ^ (- e)).
    { replace (1 - e) with (1 + - e) by lia. now rewrite pow2_split by lia. }
    set (n := (2 * v + 2 ^ (- e)) / 2 ^ (1 - e)).
    pose proof (Z.mul_div_le (2 * v + 2 ^ (- e)) (2 ^ (1 - e)) ltac:(lia)) as Hlo.
    pose proof (Z.mul_succ_div_gt (2 * v + 2 ^ (- e)) (2 ^ (1 - e)) ltac:(lia)) as Hhi.
    fold n in Hlo, Hhi. rewrite Hp1 in Hlo, Hhi.
    assert (Hn : - 2 ^ 53 < n < 2 ^ 53)
      by (change (2 ^ 53) with 9007199254740992 in *; nia).
    exists n. split; [lia |].
    destruct (Z.eqb_spec n 0) as [-> | Hz]; [reflexivity |].
    now apply integerValue_num_exact.
Qed.

(** ** Properties of the handlers *)

Ltac run :=
  unfold final_state, effects, outcome;
  unfold uploadAttempt, onValidate, onSuccess, onError, onUploadStart,
    onUploadProgress, setFile, setProgress, onFileChange,
    authenticator, fetch, get_prop, try_catch, await, toast, console_log,
    console_error, emit, throw, modify;
  unfold mbind, M_bind, mret, M_ret.

Lemma ltb_ceiling (t : MediaType) (n : N) :
  (ceiling t <? n)%N = false ↔ (n ≤ ceiling t)%N.
Proof. rewrite N.ltb_ge. reflexivity. Qed.

Lemma onValidate_accepts {S} (p : Props) (f : File) (s : S) :
  (size f ≤ ceiling (type p))%N → onValidate p f s = (s, [], Normal true).
Proof.
  intros Hle. apply ltb_ceiling in Hle.
  unfold onValidate. destruct (type p); cbn in *; rewrite Hle; reflexivity.
Qed.

(** C1. A file whose size does not exceed the ceiling of the media kind
    (20 MiB for an image, 50 MiB for a video) is accepted: [onValidate]
    answers true, shows nothing and leaves the state alone. A file
    strictly above the ceiling is rejected: [onValidate] answers false
    with a "File size too large" notice, and the upload attempt ends
    without a request to the network and without a transfer. *)
Theorem onValidate_ceiling (p : Props) (f : File) (st : UploadState)
    (net : fetch_outcome) :
  ((size f ≤ ceiling (type p))%N →
     onValidate p f st = (st, [], Normal true))
  ∧ ((ceiling (type p) < size f)%N →
     final_state (onValidate p f st) = st
     ∧ outcome (onValidate p f st) = Normal false
     ∧ title <$> toasts (effects (onValidate p f st)) = ["File size too large"]
     ∧ outcome (uploadAttempt p f net st) = Normal None
     ∧ fetches (effects (uploadAttempt p f net st)) = []).
Proof.
  split.
  - apply onValidate_accepts.
  - intros Hgt. apply N.ltb_lt in Hgt.
    run. destruct (type p); cbn in *; rewrite Hgt; cbn; auto.
Qed.

(** C2. For a success payload whose [filePath] is a non-empty string,
    [onSuccess] stores the payload, so that the current remote path is
    that path, and calls [onFileChange] exactly once, with exactly that
    path. For a payload whose [filePath] is missing, [undefined], [null]
    or the empty string, it shows the failure notice, does not call
    [onFileChange] and leaves the state, hence the current remote path,
    as it was. *)
Theorem onSuccess_filePath (p : Props) (st : UploadState)
    (fields : gmap string JsValue) :
  (∀ path : string,
     fields !! "filePath" = Some (VStr path) → path ≠ ""%string →
     let r := onSuccess p (VObj fields) st in
     currentRemotePath (final_state r) = Some (VStr path)
     ∧ final_state r = {| file := VObj fields; progress := progress st |}
     ∧ fileChanges (effects r) = [VStr path]
     ∧ toasts (effects r) =
         [{| title := MediaType_str (type p) +:+ " uploaded successfully";
             description := path +:+ " uploaded successfully!";
             toast_variant := None |}]
     ∧ outcome r = Normal tt)
  ∧ (fields !! "filePath" = None
     ∨ fields !! "filePath" = Some VUndefined
     ∨ fields !! "filePath" = Some VNull
     ∨ fields !! "filePath" = Some (VStr "") →
     let r := onSuccess p (VObj fields) st in
     final_state r = st
     ∧ currentRemotePath (final_state r) = currentRemotePath st
     ∧ fileChanges (effects r) = []
     ∧ toasts (effects r) =
         [{| title := MediaType_str (type p) +:+ " upload failed";
             description := "Your " +:+ MediaType_str (type p)
                            +:+ " could not be uploaded. Please try again.";
             toast_variant := Some "destructive" |}]
     ∧ outcome r = Normal tt).
Proof.
  split.
  - intros path Hget Hne. apply String.eqb_neq in Hne.
    unfold currentRemotePath, get_prop_opt. run. cbn.
    rewrite Hget. cbn. rewrite Hne. cbn. rewrite Hget. cbn. rewrite Hne.
    auto.
  - intros Hget. run. cbn.
    destruct Hget as [-> | [-> | [-> | ->]]]; cbn; destruct st; auto.
Qed.

Lemma onSuccess_progress (p : Props) (res : JsValue) (st : UploadState) :
  progress (final_state (onSuccess p res st)) = progress st.
Proof.
  run. cbn.
  destruct (lookup_prop res "filePath") as [v |]; cbn; [| reflexivity].
  destruct (truthy v); cbn; reflexivity.
Qed.

(** C7. [onUploadStart] resets the progress to 0, and neither
    [onSuccess] nor [onError] changes it, whatever payload or error they
    are given. *)
Theorem progress_reset_only_on_start (p : Props) (st : UploadState) :
  progress (final_state (onUploadStart st)) = num 0
  ∧ (∀ res : JsValue, progress (final_state (onSuccess p res st)) = progress st)
  ∧ (∀ error : JsValue, progress (final_state (onError p error st)) = progress st).
Proof.
  split; [reflexivity | split].
  - intros res. apply onSuccess_progress.
  - intros error. reflexivity.
Qed.

(** C8. [onError] leaves the state as it is, for every error: the stored
    payload, and with it the current remote path, stay what they were. *)
Theorem onError_keeps_path (p : Props) (error : JsValue) (st : UploadState) :
  final_state (onError p error st) = st
  ∧ file (final_state (onError p error st)) = file st
  ∧ currentRemotePath (final_state (onError p error st)) = currentRemotePath st.
Proof. repeat split. Qed.

Lemma append_assoc (a b c : string) : (a +:+ b) +:+ c = a +:+ b +:+ c.
Proof.
  induction a as [| ch a IH]; [reflexivity |].
  change (String ch ((a +:+ b) +:+ c) = String ch (a +:+ b +:+ c)).
  now rewrite IH.
Qed.

Lemma append_nil_r (a : string) : a +:+ "" = a.
Proof.
  induction a as [| ch a IH]; [reflexivity |].
  change (String ch (a +:+ "") = String ch a). now rewrite IH.
Qed.

Lemma contains_suffix (before part : string) : contains (before +:+ part) part.
Proof. exists before, ""%string. now rewrite append_nil_r. Qed.

(** C3. When the auth endpoint answers with a status outside 200-299,
    [authenticator] fails with an error whose message contains the body
    of the response; when the request itself fails, it fails with an
    error whose message carries the message of that failure. In both
    cases the upload attempt ends without a transfer. *)
Theorem authenticator_failure (S : Type) (s : S) (p : Props) (f : File)
    (st : UploadState) :
  (∀ (r : Response) (body : string),
     Response_ok r = false → text_ r = Normal body →
     ∃ msg : string,
       outcome (authenticator (Resolved r) s) = Throw (VError "Error" msg)
       ∧ msg = "Authentication request failed: Request failed with status "
               +:+ pretty (status r) +:+ ": " +:+ body
       ∧ contains msg body
       ∧ final_state (authenticator (Resolved r) s) = s
       ∧ outcome (uploadAttempt p f (Resolved r) st) = Normal None)
  ∧ (∀ name message : string,
       let failure := Rejected (VError name message) in
       outcome (authenticator failure s)
         = Throw (VError "Error" ("Authentication request failed: " +:+ message))
       ∧ final_state (authenticator failure s) = s
       ∧ outcome (uploadAttempt p f failure st) = Normal None).
Proof.
  split.
  - intros r body Hok Hbody. eexists. split; [| split; [reflexivity | split; [| split]]].
    + run. cbn. rewrite Hok, Hbody. cbn. reflexivity.
    + rewrite <- !append_assoc. apply contains_suffix.
    + run. cbn. rewrite Hok, Hbody. reflexivity.
    + run. destruct (type p); cbn;
        repeat match goal with |- context [N.ltb ?a ?b] => destruct (N.ltb a b) end;
        cbn; rewrite ?Hok, ?Hbody; reflexivity.
  - intros name message failure. subst failure. split; [| split].
    + reflexivity.
    + reflexivity.
    + run. destruct (type p); cbn;
        repeat match goal with |- context [N.ltb ?a ?b] => destruct (N.ltb a b) end;
        reflexivity.
Qed.


Lemma onUploadProgress_run (ev : ProgressEvent) (st : UploadState) :
  onUploadProgress ev st
    = ({| file := file st;
          progress := Math_round (js_mul (js_div (loaded ev) (total ev)) (num 100)) |},
       [], Normal tt).
Proof. reflexivity. Qed.

(** C4. For every progress event, [onUploadProgress] stores
    [Math.round((loaded / total) * 100)] as the progress, touches nothing
    else and shows nothing. What it stores is the binary64 value of
    [(loaded / total) * 100] rounded to an integer: the integer nearest
    to it, the upper one at a tie, when that value is finite, and that
    value itself when it is NaN or an infinity. For loaded = 50 and
    total = 200 the progress becomes 25. *)
Theorem onUploadProgress_percent (ev : ProgressEvent) (st : UploadState) :
  progress (final_state (onUploadProgress ev st))
    = Math_round (js_mul (js_div (loaded ev) (total ev)) (num 100))
  ∧ rounded (js_mul (js_div (loaded ev) (total ev)) (num 100))
      (progress (final_state (onUploadProgress ev st)))
  ∧ file (final_state (onUploadProgress ev st)) = file st
  ∧ effects (onUploadProgress ev st) = []
  ∧ progress (final_state (onUploadProgress {| loaded := num 50; total := num 200 |} st))
      = num 25
  ∧ integerValue
      (progress (final_state (onUploadProgress {| loaded := num 50; total := num 200 |} st)))
      = Some 25.
Proof.
  rewrite !onUploadProgress_run. cbn [final_state fst progress file effects snd].
  split; [reflexivity | split; [| repeat split]].
  apply Math_round_rounded, js_mul_100_mantissa.
Qed.

Lemma onUploadProgress_percent_ok (ev : ProgressEvent) (st : UploadState) :
  progress_event_ok ev →
  percent_ok (progress (final_state (onUploadProgress ev st))).
Proof.
  intros (Hvl & Hvt & H0l & Hlt & H0t & Hft).
  rewrite onUploadProgress_run. cbn [final_state fst progress].
  apply Math_round_at_most, js_mul_100_at_most, js_div_at_most; assumption.
Qed.

Lemma handle_percent_ok (p : Props) (e : UploadEvent) (st : UploadState) :
  percent_ok (progress st) → event_ok e →
  percent_ok (progress (final_state (handle p e st))).
Proof.
  intros Hst He. destruct e as [| ev | res | error]; cbn [handle].
  - exists 0. split; [reflexivity | lia].
  - now apply onUploadProgress_percent_ok.
  - now rewrite onSuccess_progress.
  - exact Hst.
Qed.

(** C6 (amended). The progress is an integer from 0 to 100 at mount and
    stays one under every event ([onUploadStart], [onUploadProgress],
    [onSuccess], [onError], with any payload or error), as long as each
    progress event carries finite numbers with 0 <= loaded <= total and
    0 < total; hence it is one after any sequence of such events. *)
Theorem progress_percent_invariant (p : Props) :
  percent_ok (progress (mount p))
  ∧ (∀ (st : UploadState) (e : UploadEvent),
       percent_ok (progress st) → event_ok e →
       percent_ok (progress (final_state (handle p e st))))
  ∧ (∀ events : list UploadEvent,
       Forall event_ok events →
       percent_ok (progress (dispatch p events (mount p)))).
Proof.
  assert (Hmount : percent_ok (progress (mount p)))
    by (exists 0; split; [reflexivity | lia]).
  split; [exact Hmount | split; [intros st e; apply handle_percent_ok |]].
  intros events Hall. unfold dispatch.
  generalize dependent (mount p).
  induction Hall as [| e events He _ IH]; intros st Hst; cbn [fold_left].
  - exact Hst.
  - apply IH. now apply handle_percent_ok.
Qed.

Lemma compare_le_ne_lt (x y : number) :
  js_le x y = true → js_strict_ne x y = js_lt x y.
Proof.
  unfold js_le, js_strict_ne, js_lt, SFleb, SFeqb, SFltb.
  destruct (SFcompare x y) as [[] |]; cbn; congruence.
Qed.

(** C9 (amended). The progress indicator is drawn exactly when the
    progress is above 0 and is not 100. For a progress that is not above
    100, and so for every integer from 0 to 100, that is exactly when
    0 < progress < 100: the indicator is hidden at 100 and hidden at 0. *)
Theorem showProgress_range (x : number) :
  (showProgress x = true ↔ js_gt x (num 0) = true ∧ js_strict_ne x (num 100) = true)
  ∧ (js_le x (num 100) = true →
     (showProgress x = true ↔ js_lt (num 0) x = true ∧ js_lt x (num 100) = true))
  ∧ (∀ n : Z, 0 ≤ n ≤ 100 → (showProgress (num n) = true ↔ 0 < n < 100))
  ∧ showProgress (num 100) = false
  ∧ showProgress (num 0) = false.
Proof.
  split; [apply andb_true_iff | split; [| split; [| split; reflexivity]]].
  - intros Hle. unfold showProgress. rewrite (compare_le_ne_lt _ _ Hle).
    apply andb_true_iff.
  - intros n Hn.
    pose proof (upto_100 (λ k, Bool.eqb (showProgress (num k)) ((0 <? k) && (k <? 100)))
                  ltac:(vm_compute; reflexivity) n Hn) as H.
    cbv beta in H. apply Bool.eqb_prop in H. rewrite H, andb_true_iff.
    rewrite Z.ltb_lt, Z.ltb_lt. reflexivity.
Qed.

(** C10. With total = 0 (either zero of binary64) the division is carried
    out all the same: the stored progress is
    [Math.round((loaded / 0) * 100)], which is NaN when loaded is zero or
    NaN and an infinity otherwise; it is never a finite number, so never
    an integer. *)
Theorem onUploadProgress_total_zero (l : number) (sz : bool) (st : UploadState) :
  let zero := S754_zero sz in
  let stored :=
    progress (final_state (onUploadProgress {| loaded := l; total := zero |} st)) in
  stored = Math_round (js_mul (js_div l zero) (num 100))
  ∧ stored = match l with
             | S754_zero _ | S754_nan => NaN
             | S754_infinity s | S754_finite s _ _ => S754_infinity (xorb s sz)
             end
  ∧ Number_isFinite stored = false
  ∧ integerValue stored = None.
Proof.
  cbv zeta. rewrite onUploadProgress_run.
  cbn [final_state fst progress loaded total].
  split; [reflexivity |].
  destruct l as [s | s | | s m e]; destruct sz;
    repeat split; destruct s; reflexivity.
Qed.

(** ** Further properties: the authenticator *)


Ltac wrapped :=
  first [ left; eexists; reflexivity
        | right; eexists; split; [| reflexivity]; reflexivity ].

(** X2. Whatever [authenticator] throws is an error object: an [Error] whose
    message starts with "Authentication request failed: ", or, when the
    failure it caught was itself [null] or [undefined], the [TypeError]
    of reading [message] from it. *)
Theorem authenticator_throws_wrapped (S : Type) (net : fetch_outcome) (s : S)
    (v : JsValue) :
  outcome (authenticator net s) = Throw v →
  (∃ msg : string, v = new_Error ("Authentication request failed: " +:+ msg))
  ∨ (∃ reason : JsValue,
       nullish reason = true
       ∧ v = VError "TypeError" (host_TypeError reason "message")).
Proof.
  run. unfold lookup_prop. cbn.
  assert (Hdone : ∀ w : JsValue,
    (∃ msg : string, w = new_Error ("Authentication request failed: " +:+ msg))
    ∨ (∃ reason : JsValue,
         nullish reason = true
         ∧ w = VError "TypeError" (host_TypeError reason "message")) →
    Throw (A := AuthGrant) w = Throw v →
    (∃ msg : string, v = new_Error ("Authentication request failed: " +:+ msg))
    ∨ (∃ reason : JsValue,
         nullish reason = true
         ∧ v = VError "TypeError" (host_TypeError reason "message")))
    by (intros w Hw [= <-]; exact Hw).
  destruct net as [reason | r]; cbn.
  - destruct reason; cbn; apply Hdone; wrapped.
  - destruct (Response_ok r); cbn.
    + destruct (json_ r) as [data | reason]; cbn.
      * destruct data; cbn; try discriminate; apply Hdone; wrapped.
      * destruct reason; cbn; apply Hdone; wrapped.
    + destruct (text_ r) as [body | reason]; cbn.
      * apply Hdone. wrapped.
      * destruct reason; cbn; apply Hdone; wrapped.
Qed.


(** X4. [authenticator] does not check the body of a success response: for
    every parsed body other than [null] it returns, without logging, the
    three properties it finds, [undefined] standing for each one that is
    absent. *)
Theorem authenticator_unvalidated_grant (S : Type) (s : S) (r : Response)
    (data : JsValue) :
  Response_ok r = true → json_ r = Normal data → nullish data = false →
  authenticator (Resolved r) s
    = (s,
       [Fetch (apiEndpoint +:+ "/api/auth/imagekit") "GET"
          [("Content-Type", "application/json")%string]],
       Normal {| token := get_prop_opt data "token";
                 expire := get_prop_opt data "expire";
                 signature := get_prop_opt data "signature" |})
  ∧ (∀ fields : gmap string JsValue,
       data = VObj fields → fields !! "token" = None →
       outcome (authenticator (Resolved r) s)
         = Normal {| token := VUndefined;
                     expire := get_prop_opt data "expire";
                     signature := get_prop_opt data "signature" |}).
Proof.
  intros Hok Hjson Hdata.
  assert (Hrun : authenticator (Resolved r) s
    = (s,
       [Fetch (apiEndpoint +:+ "/api/auth/imagekit") "GET"
          [("Content-Type", "application/json")%string]],
       Normal {| token := get_prop_opt data "token";
                 expire := get_prop_opt data "expire";
                 signature := get_prop_opt data "signature" |})).
  { run. cbn. rewrite Hok, Hjson. cbn.
    destruct data; try discriminate; reflexivity. }
  split; [exact Hrun |].
  intros fields -> Hnone. rewrite Hrun. unfold outcome, get_prop_opt. cbn.
  now rewrite Hnone.
Qed.

(** ** Further properties: the success handler *)

Lemma accepted_lookup (res : JsValue) :
  accepted res = match lookup_prop res "filePath" with
                 | Some v => truthy v
                 | None => false
                 end.
Proof. unfold accepted, get_prop_opt. destruct (lookup_prop res "filePath"); reflexivity. Qed.

Lemma lookup_prop_nullish (res : JsValue) (key : string) :
  lookup_prop res key = None ↔ nullish res = true.
Proof. destruct res; cbn; split; congruence. Qed.

Lemma onSuccess_state (p : Props) (res : JsValue) (st : UploadState) :
  final_state (onSuccess p res st)
    = if accepted res then {| file := res; progress := progress st |} else st.
Proof.
  rewrite accepted_lookup. run. cbn.
  destruct (lookup_prop res "filePath") as [v |]; cbn; [| reflexivity].
  destruct (truthy v); cbn; reflexivity.
Qed.

Lemma onSuccess_fileChanges (p : Props) (res : JsValue) (st : UploadState) :
  fileChanges (effects (onSuccess p res st))
    = if accepted res then [get_prop_opt res "filePath"] else [].
Proof.
  rewrite accepted_lookup. unfold get_prop_opt. run. cbn.
  destruct (lookup_prop res "filePath") as [v |]; cbn; [| reflexivity].
  destruct (truthy v); cbn; reflexivity.
Qed.


(** ** Further properties: sequences of events *)

Lemma handle_file (p : Props) (e : UploadEvent) (st : UploadState) :
  file (final_state (handle p e st))
    = match e with
      | EvSuccess res => if accepted res then res else file st
      | _ => file st
      end.
Proof.
  destruct e as [| ev | res | error]; cbn [handle]; try reflexivity.
  rewrite onSuccess_state. destruct (accepted res); reflexivity.
Qed.

Lemma dispatch_app (p : Props) (events rest : list UploadEvent) (st : UploadState) :
  dispatch p (events ++ rest) st = dispatch p rest (dispatch p events st).
Proof. unfold dispatch. apply fold_left_app. Qed.

Lemma dispatch_keeps_file (p : Props) (events : list UploadEvent) (st : UploadState) :
  Forall no_new_path events → file (dispatch p events st) = file st.
Proof.
  intros Hall. revert st.
  induction Hall as [| e events He _ IH]; intros st; [reflexivity |].
  change (dispatch p (e :: events) st)
    with (dispatch p events (final_state (handle p e st))).
  rewrite IH, handle_file. destruct e; try reflexivity.
  cbn in He. now rewrite He.
Qed.

(** X6. The stored payload is that of the most recent success whose
    [filePath] is truthy: events that come after it and bring no new path
    (starts, progress, errors, successes without a path) leave it in
    place, and a sequence with no such success leaves the stored payload
    as it was. *)
Theorem last_success_wins (p : Props) :
  (∀ (events rest : list UploadEvent) (res : JsValue) (st : UploadState),
     accepted res = true → Forall no_new_path rest →
     file (dispatch p (events ++ EvSuccess res :: rest) st) = res
     ∧ currentRemotePath (dispatch p (events ++ EvSuccess res :: rest) st)
       = Some (get_prop_opt res "filePath"))
  ∧ (∀ (events : list UploadEvent) (st : UploadState),
       Forall no_new_path events →
       file (dispatch p events st) = file st
       ∧ currentRemotePath (dispatch p events st) = currentRemotePath st).
Proof.
  assert (Hkeep : ∀ (events : list UploadEvent) (st : UploadState),
    Forall no_new_path events →
    file (dispatch p events st) = file st
    ∧ currentRemotePath (dispatch p events st) = currentRemotePath st).
  { intros events st Hall. pose proof (dispatch_keeps_file p events st Hall) as Hfile.
    split; [exact Hfile |]. unfold currentRemotePath. now rewrite Hfile. }
  split; [| exact Hkeep].
  intros events rest res st Hacc Hrest. rewrite dispatch_app.
  change (dispatch p (EvSuccess res :: rest) ?s)
    with (dispatch p rest (final_state (handle p (EvSuccess res) s))).
  destruct (Hkeep rest (final_state (handle p (EvSuccess res) (dispatch p events st))) Hrest)
    as [Hfile Hpath].
  rewrite Hfile, Hpath. unfold currentRemotePath.
  rewrite handle_file, Hacc. split; [reflexivity |].
  unfold accepted in Hacc. now rewrite Hacc.
Qed.

(** X7. Once a remote path is known it stays known: no sequence of events,
    with any payloads and errors, brings the component back to a state
    without a path. *)
Theorem path_stays_known (p : Props) (events : list UploadEvent) (st : UploadState) :
  is_Some (currentRemotePath st) →
  is_Some (currentRemotePath (dispatch p events st)).
Proof.
  revert st. induction events as [| e events IH]; intros st Hst; [exact Hst |].
  change (dispatch p (e :: events) st)
    with (dispatch p events (final_state (handle p e st))).
  apply IH. unfold currentRemotePath in *. rewrite handle_file.
  destruct e as [| ev | res | error]; try exact Hst.
  destruct (accepted res) eqn:Hacc; [| exact Hst].
  unfold accepted in Hacc. rewrite Hacc. eauto.
Qed.

Lemma handle_fileChanges (p : Props) (e : UploadEvent) (st : UploadState) :
  fileChanges (effects (handle p e st)) = option_list (path_of_event e).
Proof.
  destruct e as [| ev | res | error]; cbn [handle path_of_event]; try reflexivity.
  rewrite onSuccess_fileChanges. destruct (accepted res); reflexivity.
Qed.

(** X8. Over any sequence of events [onFileChange] is called once for each
    success whose [filePath] is truthy, in order and with that path, and
    for nothing else. *)
Theorem onFileChange_once_per_success (p : Props) (events : list UploadEvent)
    (st : UploadState) :
  fileChanges (dispatch_effects p events st) = omap path_of_event events.
Proof.
  revert st. induction events as [| e events IH]; intros st; [reflexivity |].
  cbn [dispatch_effects omap list_omap]. unfold fileChanges in *.
  rewrite omap_app. fold (fileChanges (effects (handle p e st))).
  rewrite handle_fileChanges, IH.
  destruct (path_of_event e); reflexivity.
Qed.

(** ** Further properties: progress and what is drawn *)

Lemma div_eucl_mul (b q : Z) : 0 < b → Z.div_eucl (b * q) b = (q, 0).
Proof.
  intros Hb. pose proof (Z.div_mul q b ltac:(lia)) as Hq.
  pose proof (Z.mod_mul q b ltac:(lia)) as Hr.
  unfold Z.div, Z.modulo in Hq, Hr. rewrite (Z.mul_comm b q).
  destruct (Z.div_eucl (q * b) b) as [q' r']. now subst.
Qed.

Lemma js_div_self (s : bool) (m : positive) (e : Z) :
  js_div (S754_finite s m e) (S754_finite s m e) = num 1.
Proof.
  unfold js_div, SFdiv, SFdiv_core_binary.
  rewrite !Z.sub_diag. change (Z.min (fexp 53 1024 0) 0) with (-53).
  change (0 - -53) with 53. rewrite Z.shiftl_mul_pow2 by lia.
  rewrite div_eucl_mul by lia.
  replace (new_location (Zpos m) 0) with loc_Exact
    by (unfold new_location; destruct (Z.even (Zpos m)); reflexivity).
  rewrite xorb_nilpotent. reflexivity.
Qed.

(** X9. When loaded equals total, for every finite non-zero count, the quotient
    is exactly 1 and the stored progress exactly 100: the progress
    indicator is not drawn. *)
Theorem progress_complete (p : Props) (s : bool) (m : positive) (e : Z)
    (st : UploadState) :
  let count := S754_finite s m e in
  let st' := final_state (onUploadProgress {| loaded := count; total := count |} st) in
  progress st' = num 100
  ∧ showProgress (progress st') = false
  ∧ progress_bar (render p st') = None.
Proof.
  cbv zeta. rewrite onUploadProgress_run.
  cbn [final_state fst progress loaded total].
  unfold render. cbn [progress progress_bar]. rewrite js_div_self.
  repeat split.
Qed.

(** X10. When nothing is loaded yet and total is above 0, the stored progress
    is 0 and the progress indicator is not drawn. *)
Theorem progress_nothing_loaded (p : Props) (s : bool) (t : number)
    (st : UploadState) :
  js_gt t (num 0) = true →
  let st' := final_state (onUploadProgress {| loaded := S754_zero s; total := t |} st) in
  progress st' = S754_zero s
  ∧ integerValue (progress st') = Some 0
  ∧ progress_bar (render p st') = None.
Proof.
  intros Ht. cbv zeta. rewrite onUploadProgress_run.
  cbn [final_state fst progress loaded total].
  unfold render. cbn [progress progress_bar].
  destruct t as [[] | [] | | [] m e]; try discriminate; destruct s; repeat split.
Qed.

(** X11. With total = 0 the progress indicator is drawn exactly when the
    quotient is +Infinity, which it then shows: for total = +0 when loaded
    is above 0, for total = -0 when loaded is below 0. For a loaded that
    is zero or NaN, or of the other sign, it is not drawn. *)
Theorem progress_bar_total_zero (p : Props) (l : number) (sz : bool)
    (st : UploadState) :
  progress_bar
    (render p (final_state
                 (onUploadProgress {| loaded := l; total := S754_zero sz |} st)))
  = if (if sz then js_lt l (num 0) else js_gt l (num 0))
    then Some Infinity else None.
Proof.
  rewrite onUploadProgress_run. unfold render.
  cbn [final_state fst progress loaded total progress_bar].
  destruct sz, l as [[] | [] | | [] m e]; reflexivity.
Qed.

Lemma render_progress_bar (p : Props) (st st' : UploadState) :
  progress st' = progress st →
  progress_bar (render p st') = progress_bar (render p st).
Proof. intros H. unfold render. cbn [progress_bar]. now rewrite H. Qed.

(** X12. Completion does not clear the indicator: what the progress indicator
    shows before [onSuccess] or [onError] it still shows after, for every
    payload and error; only [onUploadStart] takes it away. *)
Theorem progress_bar_outlives_completion (p : Props) (st : UploadState) :
  (∀ res : JsValue,
     progress_bar (render p (final_state (onSuccess p res st)))
       = progress_bar (render p st))
  ∧ (∀ error : JsValue,
       progress_bar (render p (final_state (onError p error st)))
         = progress_bar (render p st))
  ∧ progress_bar (render p (final_state (onUploadStart st))) = None.
Proof.
  split; [| split].
  - intros res. apply render_progress_bar, onSuccess_progress.
  - intros error. reflexivity.
  - reflexivity.
Qed.

Lemma render_previews (p : Props) (st : UploadState) :
  filename (render p st) = currentRemotePath st
  ∧ image_preview (render p st)
    = (if MediaType_eqb (type p) image then currentRemotePath st else None)
  ∧ video_preview (render p st)
    = (if MediaType_eqb (type p) video then currentRemotePath st else None).
Proof.
  unfold render, currentRemotePath. cbn.
  destruct (truthy (get_prop_opt (file st) "filePath")), (type p); repeat split.
Qed.

(** X13. The preview goes with the filename: a preview is drawn exactly when
    the filename is, it is of the kind given by [type] and of the same
    path, and the image and the video preview are never drawn together. *)
Theorem preview_follows_filename (p : Props) (st : UploadState) :
  (match type p with
   | image => image_preview (render p st) = filename (render p st)
              ∧ video_preview (render p st) = None
   | video => video_preview (render p st) = filename (render p st)
              ∧ image_preview (render p st) = None
   end)
  ∧ (image_preview (render p st) = None ∨ video_preview (render p st) = None)
  ∧ (filename (render p st) = None ↔
     image_preview (render p st) = None ∧ video_preview (render p st) = None).
Proof.
  destruct (render_previews p st) as (-> & -> & ->).
  destruct (type p); cbn; repeat split; auto; tauto.
Qed.

(** X14. At mount the component draws the caller's [value] as filename and
    preview when it is a non-empty string, and neither when [value] is
    absent or empty; the progress indicator is not drawn. *)
Theorem render_at_mount (p : Props) :
  filename (render p (mount p))
    = match value p with
      | Some path => if String.eqb path "" then None else Some (VStr path)
      | None => None
      end
  ∧ progress_bar (render p (mount p)) = None
  ∧ currentRemotePath (mount p) = filename (render p (mount p)).
Proof.
  unfold render, currentRemotePath, mount, get_prop_opt, lookup_prop. cbn.
  rewrite lookup_singleton_eq. cbn.
  destruct (value p) as [path |]; cbn; [destruct (String.eqb path "") |]; repeat split.
Qed.

(** X15. After a success whose [filePath] is a non-empty string the
    component draws that path as filename and as preview of the kind
    given by [type]; after a success without a truthy [filePath] the
    state, and so what is drawn, is what it was before. *)
Theorem render_after_success (p : Props) (res : JsValue) (st : UploadState) :
  let st' := final_state (onSuccess p res st) in
  (∀ path : string,
     get_prop_opt res "filePath" = VStr path → path ≠ ""%string →
     filename (render p st') = Some (VStr path)
     ∧ match type p with
       | image => image_preview (render p st') = Some (VStr path)
                  ∧ video_preview (render p st') = None
       | video => video_preview (render p st') = Some (VStr path)
                  ∧ image_preview (render p st') = None
       end)
  ∧ (accepted res = false → st' = st ∧ render p st' = render p st).
Proof.
  cbv zeta. rewrite onSuccess_state. split.
  - intros path Hpath Hne. apply String.eqb_neq in Hne.
    assert (Hacc : accepted res = true)
      by (unfold accepted; rewrite Hpath; cbn; now rewrite Hne).
    rewrite Hacc.
    destruct (render_previews p {| file := res; progress := progress st |})
      as (-> & -> & ->).
    unfold currentRemotePath. cbn [file]. rewrite Hpath. cbn. rewrite Hne. cbn.
    destruct (type p); cbn; auto.
  - intros Hacc. rewrite Hacc. split; reflexivity.
Qed.

Lemma shr_fexp_exponent (m e : Z) (l : location) :
  0 ≤ m → e ≤ -46 → m ≤ 100 * 2 ^ (- e) →
  snd (shr_fexp 53 1024 m e l) ≤ -46.
Proof.
  intros Hm He Hle.
  destruct (shr_fexp_spec m e l Hm) as (k & Hk & -> & _).
  rewrite fexp64 in Hk.
  assert (Hp : 0 < 2 ^ (- e)) by (apply Z.pow_pos_nonneg; lia).
  assert (Hd : Zdigits2 m ≤ 7 + - e).
  { apply Zdigits2_lt; [lia | lia |]. rewrite pow2_split by lia.
    change (2 ^ 7) with 128. lia. }
  lia.
Qed.

Lemma js_mul_100_exponent (q : number) :
  at_most 1 q →
  match js_mul q (num 100) with
  | S754_finite _ _ e => e ≤ -46
  | _ => True
  end.
Proof.
  destruct q as [s | s | | [] m e]; cbn [at_most]; try contradiction.
  - intros _. destruct s; exact I.
  - intros [He Hm].
    change (num 100) with (S754_finite false 7036874417766400 (-46)).
    unfold js_mul, SFmul, binary_round_aux. cbn [xorb].
    set (mz := Zpos (m * 7036874417766400)). set (ez := e + -46).
    assert (Hmz : 0 ≤ mz) by (subst mz; lia).
    assert (Hez : ez ≤ -46) by (subst ez; lia).
    assert (Hle : mz ≤ 100 * 2 ^ (- ez)).
    { subst mz ez. rewrite Pos2Z.inj_mul. replace (- (e + -46)) with (46 + - e) by lia.
      rewrite pow2_split by lia. change (2 ^ 46) with 70368744177664. lia. }
    pose proof (shr_fexp_exponent mz ez loc_Exact Hmz Hez Hle) as He1.
    destruct (shr_fexp_at_most 100 mz ez loc_Exact) as (_ & Hm1 & Hup);
      [cbn; lia | lia | lia | exact Hle |].
    destruct (shr_fexp 53 1024 mz ez loc_Exact) as [rec1 e1]. cbn [fst snd] in *.
    set (m1 := round_nearest_even (shr_m rec1) (loc_of_shr_record rec1)).
    assert (Hm1' : 0 ≤ m1 ≤ 100 * 2 ^ (- e1)).
    { subst m1. destruct (round_nearest_even_cases rec1) as [-> | [-> Hi]]; [lia |].
      specialize (Hup Hi ltac:(congruence)). lia. }
    pose proof (shr_fexp_exponent m1 e1 loc_Exact ltac:(lia) He1 ltac:(lia)) as He2.
    destruct (shr_fexp 53 1024 m1 e1 loc_Exact) as [rec2 e2]. cbn [fst snd] in *.
    destruct (shr_m rec2); [exact I | | exact I].
    destruct (e2 <=? 1024 - 53); [exact He2 | exact I].
Qed.

Lemma showProgress_num (n : Z) :
  0 ≤ n ≤ 100 → showProgress (num n) = (0 <? n) && (n <? 100).
Proof.
  intros Hn.
  pose proof (upto_100 (λ k, Bool.eqb (showProgress (num k)) ((0 <? k) && (k <? 100)))
                ltac:(vm_compute; reflexivity) n Hn) as H.
  cbv beta in H. now apply Bool.eqb_prop in H.
Qed.

Lemma Math_round_percent (x : number) :
  at_most 100 x →
  match x with S754_finite _ _ e => e ≤ -46 | _ => True end →
  ∃ n : Z, 0 ≤ n ≤ 100
    ∧ integerValue (Math_round x) = Some n
    ∧ showProgress (Math_round x) = (0 <? n) && (n <? 100)
    ∧ (showProgress (Math_round x) = true → Math_round x = num n).
Proof.
  destruct x as [s | s | | [] m e]; cbn [at_most]; try contradiction.
  - intros _ _. exists 0. destruct s; repeat split; try lia; discriminate.
  - intros [_ Hm] He. unfold Math_round.
    destruct (Z.leb_spec 0 e) as [He0 | He0]; [lia |]. cbn [cond_Zopp].
    set (n := (2 * Zpos m + 2 ^ (- e)) / 2 ^ (1 - e)).
    assert (Hp : 0 < 2 ^ (- e)) by (apply Z.pow_pos_nonneg; lia).
    assert (Hp1 : 2 ^ (1 - e) = 2 * 2 ^ (- e)).
    { replace (1 - e) with (1 + - e) by lia. now rewrite pow2_split by lia. }
    assert (Hn : 0 ≤ n ≤ 100).
    { subst n. rewrite Hp1. split.
      - apply Z.div_pos; lia.
      - apply Z.lt_succ_r. apply Z.div_lt_upper_bound; lia. }
    clearbody n. destruct (Z.eqb_spec n 0) as [-> | Hz].
    + exists 0. repeat split; try lia; discriminate.
    + exists n. rewrite integerValue_num, showProgress_num by lia.
      repeat split; lia.
Qed.

(** X16. For a progress event with finite counts, 0 <= loaded <= total and
    0 < total, the stored progress is an integer n from 0 to 100, and the
    progress indicator is drawn exactly when 0 < n < 100, showing n. *)
Theorem progress_bar_percent (p : Props) (ev : ProgressEvent) (st : UploadState) :
  progress_event_ok ev →
  ∃ n : Z, 0 ≤ n ≤ 100
    ∧ integerValue (progress (final_state (onUploadProgress ev st))) = Some n
    ∧ progress_bar (render p (final_state (onUploadProgress ev st)))
      = if (0 <? n) && (n <? 100) then Some (num n) else None.
Proof.
  intros (Hvl & Hvt & H0l & Hlt & H0t & Hft).
  rewrite onUploadProgress_run. unfold render.
  cbn [final_state fst progress progress_bar].
  pose proof (js_div_at_most _ _ Hvl Hvt H0l Hlt H0t Hft) as Hq.
  destruct (Math_round_percent _ (js_mul_100_at_most _ Hq) (js_mul_100_exponent _ Hq))
    as (n & Hn & Hint & Hshow & Hnum).
  exists n. split; [exact Hn | split; [exact Hint |]].
  destruct (showProgress _) eqn:Hs; rewrite <- Hshow; [| reflexivity].
  now rewrite Hnum.
Qed.

End FileUpload.

(** ** The handlers on sample inputs *)

Example Math_round_ties :
  Math_round (js_div (num 5) (num 2)) = num 3
  ∧ Math_round (js_div (num (-5)) (num 2)) = num (-2)
  ∧ Math_round (js_div (num 1) (num 2)) = num 1
  ∧ Math_round (js_div (num (-1)) (num 2)) = S754_zero true
  ∧ Math_round (js_div (num 7) (num 5)) = num 1
  ∧ Math_round (num 25) = num 25
  ∧ Math_round NaN = NaN
  ∧ Math_round Infinity = Infinity.
Proof. repeat split. Qed.

(** 29 / 200 * 100 is 14.499999999999998 in binary64, so the progress
    shown for 29 bytes of 200 is 14. *)
Example progress_29_of_200 :
  js_mul (js_div (num 29) (num 200)) (num 100)
    = S754_finite false 8162774324609023 (-49)
  ∧ progress (final_state (onUploadProgress {| loaded := num 29; total := num 200 |}
                             (mount sample_props))) = num 14.
Proof. split; reflexivity. Qed.

Example authenticator_server_error :
  authenticator sample_apiEndpoint sample_ToString sample_TypeError
    (Resolved server_error) tt
  = (tt,
     [Fetch "https://library.example/api/auth/imagekit" "GET"
        [("Content-Type", "application/json")%string];
      ConsoleError [VStr "Authentication error:"; VStr "server error"];
      ConsoleError [VStr "Authenticator failed:";
                    VError "Error" "Request failed with status 500: server error"]],
     Throw (VError "Error"
       "Authentication request failed: Request failed with status 500: server error")).
Proof. reflexivity. Qed.

Example onSuccess_sample :
  effects (onSuccess sample_ToString sample_TypeError sample_props
             (VObj uploaded_fields) (mount sample_props))
  = [ConsoleLog [VStr "Upload success response:"; VObj uploaded_fields];
     FileChange (VStr "/img/abc.png");
     ToastShown {| title := "image uploaded successfully";
                   description := "/img/abc.png uploaded successfully!";
                   toast_variant := None |}].
Proof. reflexivity. Qed.

Example onSuccess_null_payload :
  onSuccess sample_ToString sample_TypeError sample_props VNull (mount sample_props)
  = (mount sample_props,
     [ConsoleLog [VStr "Upload success response:"; VNull]],
     Throw (VError "TypeError"
              "Cannot read properties of undefined (reading 'filePath')")).
Proof. reflexivity. Qed.

Example render_sample :
  render sample_video_props (mount sample_video_props)
  = {| button_class := "bg-light-600 border-gray-100 border";
       placeholder_text := "Upload a trailer";
       filename := Some (VStr "/videos/old.mp4");
       progress_bar := None;
       image_preview := None;
       video_preview := Some (VStr "/videos/old.mp4") |}.
Proof. reflexivity. Qed.

(** ** The theorems at sample inputs *)

Lemma onValidate_ceiling_witness :
  ((size small_file ≤ ceiling (type sample_props))%N
   ∧ onValidate sample_props small_file (mount sample_props)
       = (mount sample_props, [], Normal true))
  ∧ ((ceiling (type sample_props) < size large_file)%N
     ∧ outcome (onValidate sample_props large_file (mount sample_props)) = Normal false
     ∧ outcome (uploadAttempt sample_apiEndpoint sample_ToString sample_TypeError
        sample_control_error sample_control_refusal
                  sample_props large_file (Resolved grant_response)
                  (mount sample_props)) = Normal None).
Proof.
  assert (Hsmall : (size small_file ≤ ceiling (type sample_props))%N)
    by (vm_compute; discriminate).
  assert (Hlarge : (ceiling (type sample_props) < size large_file)%N)
    by reflexivity.
  split.
  - split; [exact Hsmall |].
    exact (proj1 (onValidate_ceiling sample_apiEndpoint sample_ToString sample_TypeError
        sample_control_error sample_control_refusal
                    sample_props small_file (mount sample_props)
                    (Resolved grant_response)) Hsmall).
  - split; [exact Hlarge |].
    destruct (proj2 (onValidate_ceiling sample_apiEndpoint sample_ToString sample_TypeError
        sample_control_error sample_control_refusal sample_props large_file (mount sample_props)
                       (Resolved grant_response)) Hlarge)
      as (_ & Hfalse & _ & Hnone & _).
    split; [exact Hfalse | exact Hnone].
Defined.

Lemma onSuccess_filePath_witness :
  (fileChanges (effects (onSuccess sample_ToString sample_TypeError sample_props
                           (VObj uploaded_fields) (mount sample_props)))
     = [VStr "/img/abc.png"]
   ∧ currentRemotePath (final_state (onSuccess sample_ToString sample_TypeError
                          sample_props (VObj uploaded_fields) (mount sample_props)))
     = Some (VStr "/img/abc.png"))
  ∧ (fileChanges (effects (onSuccess sample_ToString sample_TypeError sample_props
                             (VObj empty_path_fields) (mount sample_props))) = []
     ∧ final_state (onSuccess sample_ToString sample_TypeError sample_props
                      (VObj empty_path_fields) (mount sample_props))
       = mount sample_props).
Proof.
  split.
  - destruct (proj1 (onSuccess_filePath sample_ToString sample_TypeError sample_props
                       (mount sample_props) uploaded_fields)
                "/img/abc.png"%string eq_refl ltac:(discriminate))
      as (Hpath & _ & Hcalls & _).
    split; [exact Hcalls | exact Hpath].
  - destruct (proj2 (onSuccess_filePath sample_ToString sample_TypeError sample_props
                       (mount sample_props) empty_path_fields)
                (or_intror (or_intror (or_intror eq_refl))))
      as (Hstate & _ & Hcalls & _).
    split; [exact Hcalls | exact Hstate].
Defined.

Lemma authenticator_failure_witness :
  (Response_ok server_error = false
   ∧ ∃ msg : string,
       outcome (authenticator sample_apiEndpoint sample_ToString sample_TypeError
                  (Resolved server_error) tt) = Throw (VError "Error" msg)
       ∧ contains msg "server error")
  ∧ outcome (authenticator sample_apiEndpoint sample_ToString sample_TypeError
               (Rejected (VError "TypeError" "Failed to fetch")) tt)
    = Throw (VError "Error" "Authentication request failed: Failed to fetch").
Proof.
  pose proof (authenticator_failure sample_apiEndpoint sample_ToString sample_TypeError
        sample_control_error sample_control_refusal
                unit tt sample_props small_file (mount sample_props)) as [Hstatus Hnet].
  split.
  - split; [reflexivity |].
    destruct (Hstatus server_error "server error"%string eq_refl eq_refl)
      as (msg & Hthrow & _ & Hcontains & _).
    exists msg. split; [exact Hthrow | exact Hcontains].
  - exact (proj1 (Hnet "TypeError"%string "Failed to fetch"%string)).
Defined.


Lemma progress_percent_invariant_witness :
  Forall event_ok sample_events
  ∧ percent_ok (progress (dispatch sample_ToString sample_TypeError sample_props
                            sample_events (mount sample_props))).
Proof.
  assert (Hall : Forall event_ok sample_events).
  { repeat constructor. }
  split; [exact Hall |].
  exact (proj2 (proj2 (progress_percent_invariant sample_ToString sample_TypeError
                         sample_props)) sample_events Hall).
Defined.

Lemma showProgress_range_witness :
  js_le (num 50) (num 100) = true
  ∧ showProgress (num 50) = true
  ∧ (0 ≤ 99 ≤ 100 ∧ showProgress (num 99) = true).
Proof.
  destruct (showProgress_range (num 50)) as (_ & Hle & Hint & _).
  split; [reflexivity | split].
  - apply (Hle eq_refl). split; reflexivity.
  - split; [lia |]. apply (Hint 99 ltac:(lia)). lia.
Defined.

(** ** Where the stated range fails *)


(** C6 as stated, for all event-handler inputs, fails: from the mounted
    state, whose progress is 0, a progress event with total = 0 stores
    Infinity, and one with loaded above total stores 150. *)
Lemma progress_percent_counterexample :
  percent_ok (progress (mount sample_props))
  ∧ progress (final_state (handle sample_ToString sample_TypeError sample_props
                             (EvUploadProgress length_unknown) (mount sample_props)))
    = Infinity
  ∧ ¬ percent_ok
        (progress (final_state (handle sample_ToString sample_TypeError sample_props
                                  (EvUploadProgress length_unknown)
                                  (mount sample_props))))
  ∧ integerValue
      (progress (final_state (handle sample_ToString sample_TypeError sample_props
                                (EvUploadProgress overshoot) (mount sample_props))))
    = Some 150
  ∧ ¬ percent_ok
        (progress (final_state (handle sample_ToString sample_TypeError sample_props
                                  (EvUploadProgress overshoot)
                                  (mount sample_props)))).
Proof.
  split; [exists 0; split; [reflexivity | lia] |].
  split; [reflexivity |].
  split; [intros (n & Hn & _); discriminate Hn |].
  split; [reflexivity |].
  intros (n & Hn & Hrange).
  assert (Hval : Some 150 = Some n) by exact Hn.
  injection Hval as <-. lia.
Qed.

(** C9 as stated, for every value of the progress, fails: after a
    progress event with total = 0 the progress is Infinity, which is not
    below 100, and the indicator is drawn; so it is at 150. *)
Lemma showProgress_counterexample :
  let st := final_state (onUploadProgress length_unknown (mount sample_props)) in
  progress st = Infinity
  ∧ showProgress (progress st) = true
  ∧ progress_bar (render sample_props st) = Some Infinity
  ∧ ¬ (js_lt (num 0) (progress st) = true ∧ js_lt (progress st) (num 100) = true)
  ∧ showProgress (num 150) = true
  ∧ ¬ (js_lt (num 0) (num 150) = true ∧ js_lt (num 150) (num 100) = true).
Proof.
  cbv zeta. repeat split; try reflexivity; intros [_ H]; discriminate H.
Qed.

(** ** The further properties at sample inputs *)

Lemma authenticator_throws_wrapped_witness :
  ∃ msg : string,
    outcome (authenticator sample_apiEndpoint sample_ToString sample_TypeError
               (Resolved server_error) tt)
    = Throw (new_Error ("Authentication request failed: " +:+ msg)).
Proof.
  destruct (authenticator_throws_wrapped sample_apiEndpoint sample_ToString
              sample_TypeError unit (Resolved server_error) tt
              (VError "Error"
                 "Authentication request failed: Request failed with status 500: server error")
              eq_refl) as [[msg Hmsg] | (reason & _ & Hreason)].
  - exists msg. now rewrite <- Hmsg.
  - discriminate Hreason.
Defined.


Lemma authenticator_unvalidated_grant_witness :
  outcome (authenticator sample_apiEndpoint sample_ToString sample_TypeError
             (Resolved partial_body) tt)
  = Normal {| token := VStr "t"; expire := VUndefined; signature := VUndefined |}.
Proof.
  pose proof (proj1 (authenticator_unvalidated_grant sample_apiEndpoint sample_ToString
                       sample_TypeError unit tt partial_body
                       (VObj {[ "token" := VStr "t" ]}) eq_refl eq_refl eq_refl))
    as Hrun.
  rewrite Hrun. reflexivity.
Defined.

Lemma last_success_wins_witness :
  Forall no_new_path later_events
  ∧ file (dispatch sample_ToString sample_TypeError sample_props
            ([EvUploadStart; EvSuccess (VObj second_upload_fields)]
               ++ EvSuccess (VObj uploaded_fields) :: later_events)
            (mount sample_props))
    = VObj uploaded_fields.
Proof.
  assert (Hlater : Forall no_new_path later_events) by (repeat constructor).
  split; [exact Hlater |].
  exact (proj1 (proj1 (last_success_wins sample_ToString sample_TypeError sample_props)
                  [EvUploadStart; EvSuccess (VObj second_upload_fields)]
                  later_events (VObj uploaded_fields) (mount sample_props)
                  eq_refl Hlater)).
Defined.

Lemma path_stays_known_witness :
  is_Some (currentRemotePath uploaded_state)
  ∧ is_Some (currentRemotePath
               (dispatch sample_ToString sample_TypeError sample_props
                  later_events uploaded_state)).
Proof.
  assert (Hknown : is_Some (currentRemotePath uploaded_state))
    by (exists (VStr "/img/abc.png"); reflexivity).
  split; [exact Hknown |].
  exact (path_stays_known sample_ToString sample_TypeError sample_props
           later_events uploaded_state Hknown).
Defined.

Lemma progress_nothing_loaded_witness :
  js_gt (num 200) (num 0) = true
  ∧ progress_bar (render sample_props
                    (final_state (onUploadProgress nothing_loaded (mount sample_props))))
    = None.
Proof.
  split; [reflexivity |].
  exact (proj2 (proj2 (progress_nothing_loaded sample_props false (num 200)
                         (mount sample_props) eq_refl))).
Defined.

Lemma preview_follows_filename_witness :
  filename (render sample_video_props (mount sample_video_props))
    = Some (VStr "/videos/old.mp4")
  ∧ ¬ (image_preview (render sample_video_props (mount sample_video_props)) = None
       ∧ video_preview (render sample_video_props (mount sample_video_props)) = None).
Proof.
  split; [reflexivity |].
  intros Hnone.
  pose proof (proj2 (proj2 (proj2 (preview_follows_filename sample_video_props
                                     (mount sample_video_props)))) Hnone) as Hfile.
  discriminate Hfile.
Defined.

Lemma render_after_success_witness :
  get_prop_opt (VObj uploaded_fields) "filePath" = VStr "/img/abc.png"
  ∧ image_preview
      (render sample_props
         (final_state (onSuccess sample_ToString sample_TypeError sample_props
                         (VObj uploaded_fields) (mount sample_props))))
    = Some (VStr "/img/abc.png")
  ∧ render sample_props
      (final_state (onSuccess sample_ToString sample_TypeError sample_props
                      (VObj empty_path_fields) uploaded_state))
    = render sample_props uploaded_state.
Proof.
  split; [reflexivity | split].
  - exact (proj1 (proj2 (proj1 (render_after_success sample_ToString sample_TypeError
                                  sample_props (VObj uploaded_fields)
                                  (mount sample_props))
                           "/img/abc.png"%string eq_refl ltac:(discriminate)))).
  - exact (proj2 (proj2 (render_after_success sample_ToString sample_TypeError
                           sample_props (VObj empty_path_fields) uploaded_state)
                    eq_refl)).
Defined.

Lemma progress_bar_percent_witness :
  progress_event_ok half_done
  ∧ ∃ n : Z, 0 ≤ n ≤ 100
      ∧ integerValue
          (progress (final_state (onUploadProgress half_done (mount sample_props))))
        = Some n
      ∧ progress_bar (render sample_props
                        (final_state (onUploadProgress half_done (mount sample_props))))
        = if (0 <? n) && (n <? 100) then Some (num n) else None.
Proof.
  assert (Hok : progress_event_ok half_done) by (repeat split).
  split; [exact Hok |].
  exact (progress_bar_percent sample_props half_done (mount sample_props) Hok).
Defined.
